(** * The session lifecycle of the mood-music client

    A shallow embedding of the authentication code of the repository:
    - [lib/auth/pkce.js]: verifier/challenge generation and the single-use
      session-storage entries;
    - [lib/config/spotify.js]: configuration and its validation;
    - [lib/services/spotifyApi.js]: the [SpotifyApiClient] singleton
      (credential store, code exchange, refresh, request gateway);
    - [lib/contexts/SpotifyAuthContext.jsx]: the React provider state;
    - [app/api/auth/callback/spotify/route.js]: the server-side callback.

    JavaScript's [async] functions are embedded as resumptions: a function
    runs synchronously on the shared world up to its next [await fetch(..)],
    where it is suspended with its continuation.  One definition therefore
    serves both for running a call to completion against the replies of the
    network and for interleaving several calls on the event loop. *)

From Stdlib Require Import ZArith String Ascii List Lia.
From Stdlib.Strings Require Import Byte.
From stdpp Require Import base option gmap strings list.


(** ** JavaScript values *)

(** A value that is a string, or [null]/[undefined]. *)
Definition truthy (v : option string) : bool :=
  match v with
  | Some s => negb (String.eqb s "")
  | None => false
  end.

(** [a || b] on such values. *)
Definition or_else (a b : option string) : option string :=
  if truthy a then a else b.

(** Conversion to a string, as in a template literal or in the
    [URLSearchParams] constructor. *)
Definition show (v : option string) : string :=
  match v with
  | Some s => s
  | None => "undefined"
  end.

Inductive exn : Type :=
| Error (message : string)
| TypeError (message : string)
| SyntaxError (message : string)
| RangeError (message : string)
| ReferenceError (message : string).

Definition message (e : exn) : string :=
  match e with
  | Error m | TypeError m | SyntaxError m | RangeError m | ReferenceError m => m
  end.

(** A [Date] object: a time value in milliseconds, or an invalid date
    (time value [NaN]). *)
Inductive date : Type :=
| InvalidDate
| DateAt (ms : Z).

Definition MAX_TIME_VALUE : Z := 8640000000000000.

(** [new Date(t)] where [t] is a number ([None] for [NaN]). *)
Definition new_Date (t : option Z) : date :=
  match t with
  | Some ms => if (Z.abs ms <=? MAX_TIME_VALUE)%Z then DateAt ms else InvalidDate
  | None => InvalidDate
  end.

(** [new Date() < d] and [new Date() >= d]; every comparison with an invalid
    date is false. *)
Definition now_lt (t : Z) (d : date) : bool :=
  match d with
  | DateAt ms => (t <? ms)%Z
  | InvalidDate => false
  end.

Definition now_ge (t : Z) (d : date) : bool :=
  match d with
  | DateAt ms => (ms <=? t)%Z
  | InvalidDate => false
  end.

(** [d.toISOString()]; the ISO text is represented by the instant it denotes. *)
Definition toISOString (d : date) : exn + Z :=
  match d with
  | DateAt ms => inr ms
  | InvalidDate => inl (RangeError "Invalid time value")
  end.

(** ** Messages exchanged with the catalog service *)

(** The [error] member of an error document: a text (token endpoint) or an
    object with a [message] (Web API). *)
Inductive error_field : Type :=
| ErrorText (s : string)
| ErrorObject (msg : option string).

(** A JSON document, seen through the members the client reads. *)
Record json : Type := {
  access_token : option string;
  refresh_token : option string;
  expires_in : option Z;
  error_description : option string;
  error : option error_field;
  content : string
}.

Inductive body : Type :=
| Json (j : json)
| NotJson (text : string).

Record response : Type := {
  status : Z;
  statusText : string;
  payload : body
}.

Definition ok (r : response) : bool :=
  ((200 <=? status r) && (status r <=? 299))%Z.

Record request : Type := {
  url : string;
  method : string;
  headers : gmap string string;
  form : list (string * string)
}.

(** What the network answers to one [fetch]: the promise rejects, or a
    response arrives. *)
Inductive reply : Type :=
| NetworkError
| Arrived (r : response).

(** ** The world the code runs in *)

Record environment : Type := {
  NEXT_PUBLIC_SPOTIFY_CLIENT_ID : option string;
  SPOTIFY_CLIENT_SECRET : option string;
  NODE_ENV : option string
}.

(** An entry of [localStorage], seen through what [JSON.parse] makes of its
    text:
    - [StoredTokens a r expiry]: a text that [JSON.parse] turns into a value
      other than [null], seen through the three members that
      [loadTokensFromStorage] reads from it ([None] for a member that is
      undefined, and for an expiry that [new Date] cannot read).  The text
      written by [saveTokensToStorage] is of this kind; so is a text such as
      [123] or [true], whose value has none of the three members;
    - [Unparsable]: a non-empty text on which [JSON.parse] throws, or that
      it turns into [null], whose members cannot be read;
    - [EmptyText]: the empty text. *)
Inductive stored_item : Type :=
| StoredTokens (a r : option string) (expiry : option Z)
| Unparsable
| EmptyText.

(** An address with its query parameters, in order. *)
Record address : Type := {
  base : string;
  query : list (string * string)
}.

Record browser : Type := {
  localStorage : gmap string stored_item;
  sessionStorage : gmap string string;
  origin : string;
  href : option address
}.

(** The fields of the [SpotifyApiClient] singleton. *)
Record SpotifyApiClient : Type := {
  accessToken : option string;
  refreshToken : option string;
  tokenExpiry : option date
}.

(** The React state of [SpotifyAuthProvider]. *)
Record AuthState : Type := {
  s_isAuthenticated : bool;
  s_isLoading : bool;
  s_error : option string;
  s_user : option json;
  s_accessToken : option string
}.

Record world : Type := {
  now : Z;
  env : environment;
  window : option browser;
  entropy : nat -> byte;
  drawn : nat;
  spotifyApi : SpotifyApiClient;
  react : AuthState;
  sent : list request
}.

Definition set_now (f : Z -> Z) (w : world) : world :=
  {| now := f (now w); env := env w; window := window w; entropy := entropy w;
     drawn := drawn w; spotifyApi := spotifyApi w; react := react w; sent := sent w |}.

Definition set_window (f : option browser -> option browser) (w : world) : world :=
  {| now := now w; env := env w; window := f (window w); entropy := entropy w;
     drawn := drawn w; spotifyApi := spotifyApi w; react := react w; sent := sent w |}.

Definition set_drawn (f : nat -> nat) (w : world) : world :=
  {| now := now w; env := env w; window := window w; entropy := entropy w;
     drawn := f (drawn w); spotifyApi := spotifyApi w; react := react w; sent := sent w |}.

Definition set_spotifyApi (f : SpotifyApiClient -> SpotifyApiClient) (w : world) : world :=
  {| now := now w; env := env w; window := window w; entropy := entropy w;
     drawn := drawn w; spotifyApi := f (spotifyApi w); react := react w; sent := sent w |}.

Definition set_react (f : AuthState -> AuthState) (w : world) : world :=
  {| now := now w; env := env w; window := window w; entropy := entropy w;
     drawn := drawn w; spotifyApi := spotifyApi w; react := f (react w); sent := sent w |}.

Definition set_sent (f : list request -> list request) (w : world) : world :=
  {| now := now w; env := env w; window := window w; entropy := entropy w;
     drawn := drawn w; spotifyApi := spotifyApi w; react := react w; sent := f (sent w) |}.

Definition set_localStorage
    (f : gmap string stored_item -> gmap string stored_item) (b : browser) : browser :=
  {| localStorage := f (localStorage b); sessionStorage := sessionStorage b;
     origin := origin b; href := href b |}.

Definition set_sessionStorage
    (f : gmap string string -> gmap string string) (b : browser) : browser :=
  {| localStorage := localStorage b; sessionStorage := f (sessionStorage b);
     origin := origin b; href := href b |}.

Definition set_href (a : address) (b : browser) : browser :=
  {| localStorage := localStorage b; sessionStorage := sessionStorage b;
     origin := origin b; href := Some a |}.

(** ** Asynchronous functions as resumptions *)

(** The state of a call to an [async] function: settled (leaving the world
    [w]), or suspended at an [await fetch(..)] with the continuation that the
    event loop resumes, in the world of that later moment, with the reply.
    [Cutoff] is the model's own: the unfolding bound of a recursive function
    was reached. *)
Inductive async (A : Type) : Type :=
| Resolved (w : world) (a : A)
| Rejected (w : world) (e : exn)
| Cutoff (w : world)
| Await (w : world) (k : reply -> world -> async A).
Arguments Resolved {A} w a.
Arguments Rejected {A} w e.
Arguments Cutoff {A} w.
Arguments Await {A} w k.

Definition task (A : Type) : Type := world -> async A.

Definition ret {A} (a : A) : task A := fun w => Resolved w a.

Definition throw {A} (e : exn) : task A := fun w => Rejected w e.

Fixpoint bind_async {A B} (r : async A) (f : A -> task B) : async B :=
  match r with
  | Resolved w a => f a w
  | Rejected w e => Rejected w e
  | Cutoff w => Cutoff w
  | Await w k => Await w (fun rep w' => bind_async (k rep w') f)
  end.

Definition bind {A B} (m : task A) (f : A -> task B) : task B :=
  fun w => bind_async (m w) f.

(** [try { m } catch (e) { h e }] *)
Fixpoint catch_async {A} (r : async A) (h : exn -> task A) : async A :=
  match r with
  | Resolved w a => Resolved w a
  | Rejected w e => h e w
  | Cutoff w => Cutoff w
  | Await w k => Await w (fun rep w' => catch_async (k rep w') h)
  end.

Definition try_catch {A} (m : task A) (h : exn -> task A) : task A :=
  fun w => catch_async (m w) h.

(** [try { m } finally { f }] for a synchronous [f]. *)
Fixpoint finally_async {A} (r : async A) (f : world -> world) : async A :=
  match r with
  | Resolved w a => Resolved (f w) a
  | Rejected w e => Rejected (f w) e
  | Cutoff w => Cutoff w
  | Await w k => Await w (fun rep w' => finally_async (k rep w') f)
  end.

Definition try_finally {A} (m : task A) (f : world -> world) : task A :=
  fun w => finally_async (m w) f.

(** A synchronous statement. *)
Definition perform (f : world -> world) : task unit :=
  fun w => Resolved (f w) tt.

Definition read {A} (f : world -> A) : task A :=
  fun w => Resolved w (f w).

Declare Scope task_scope.
Delimit Scope task_scope with task.
Notation "x <- m ;; k" := (bind m (fun x => k))
  (at level 100, m at next level, right associativity) : task_scope.
Notation "m ;; k" := (bind m (fun _ => k))
  (at level 100, right associativity) : task_scope.
Local Open Scope task_scope.

(** [fetch(req)]: the request leaves at once; the call is suspended until
    the reply arrives. *)
Definition fetch (req : request) : task response :=
  fun w =>
    Await (set_sent (fun l => l ++ [req]) w)
      (fun rep w' =>
         match rep with
         | NetworkError => Rejected w' (TypeError "Failed to fetch")
         | Arrived r => Resolved w' r
         end).

(** [response.json()] *)
Definition response_json (r : response) : task json :=
  match payload r with
  | Json j => ret j
  | NotJson _ => throw (SyntaxError "Unexpected token")
  end.

(** ** Running one call against the replies of the network *)

Inductive outcome (A : Type) : Type :=
| Returned (a : A)
| Thrown (e : exn)
| Pending
| OutOfFuel.
Arguments Returned {A} a.
Arguments Thrown {A} e.
Arguments Pending {A}.
Arguments OutOfFuel {A}.

(** A reply arrives some milliseconds after the moment the call was
    suspended. *)
Definition arrival : Type := (nat * reply)%type.

Definition elapse (dt : nat) (w : world) : world :=
  set_now (fun t => (t + Z.of_nat dt)%Z) w.

Fixpoint run {A} (script : list arrival) (r : async A) {struct r}
    : world * outcome A * list arrival :=
  match r with
  | Resolved w a => (w, Returned a, script)
  | Rejected w e => (w, Thrown e, script)
  | Cutoff w => (w, OutOfFuel, script)
  | Await w k =>
      match script with
      | [] => (w, Pending, [])
      | (dt, rep) :: script' => run script' (k rep (elapse dt w))
      end
  end.

Definition exec {A} (m : task A) (script : list arrival) (w : world)
    : world * outcome A * list arrival :=
  run script (m w).

(** A synchronous function that returns a value and may change the world. *)
Definition sync {A} (f : world -> A * world) : task A :=
  fun w => let (a, w') := f w in Resolved w' a.

(** A synchronous function that may throw. *)
Definition checked {A} (f : world -> exn + A) : task A :=
  fun w =>
    match f w with
    | inl e => Rejected w e
    | inr a => Resolved w a
    end.

(** ** lib/auth/pkce.js *)

Definition possible : string :=
  "ABCDEFGHIJKLMNOPQRSTUVWXYZabcdefghijklmnopqrstuvwxyz0123456789-._~".

(** [s[i]] inside a string concatenation: the character, or the text of
    [undefined] past the end. *)
Definition char_at (s : string) (i : nat) : string :=
  match String.get i s with
  | Some c => String c ""
  | None => "undefined"
  end.

(** [crypto.getRandomValues(new Uint8Array(length))] draws the next [length]
    bytes of the platform's random source. *)
Definition getRandomValues (length : nat) (w : world) : list byte * world :=
  (map (fun i => entropy w (drawn w + i)) (seq 0 length),
   set_drawn (fun d => d + length) w).

Definition generateRandomString (length : nat) (w : world) : string * world :=
  let (values, w') := getRandomValues length w in
  (fold_left
     (fun acc x => acc +:+ char_at possible (Byte.to_nat x mod String.length possible))
     values "",
   w').

(** [String.fromCharCode(byte)] *)
Definition fromCharCode (b : byte) : string := String (ascii_of_byte b) "".

(** [parts.join('')] *)
Definition join (parts : list string) : string := fold_right String.append "" parts.

Definition base64_alphabet : string :=
  "ABCDEFGHIJKLMNOPQRSTUVWXYZabcdefghijklmnopqrstuvwxyz0123456789+/".

Definition sextet (alphabet : string) (n : N) : ascii :=
  match String.get (N.to_nat n) alphabet with
  | Some c => c
  | None => "="%char
  end.

(** The platform's [btoa]: base64 of RFC 4648, section 4, with padding. *)
Fixpoint btoa (s : string) : string :=
  match s with
  | EmptyString => ""
  | String a EmptyString =>
      let x := N_of_ascii a in
      String (sextet base64_alphabet (x / 4))
        (String (sextet base64_alphabet ((x mod 4) * 16)) "==")
  | String a (String b EmptyString) =>
      let x := N_of_ascii a in
      let y := N_of_ascii b in
      String (sextet base64_alphabet (x / 4))
        (String (sextet base64_alphabet ((x mod 4) * 16 + y / 16))
           (String (sextet base64_alphabet ((y mod 16) * 4)) "="))
  | String a (String b (String c rest)) =>
      let x := N_of_ascii a in
      let y := N_of_ascii b in
      let z := N_of_ascii c in
      String (sextet base64_alphabet (x / 4))
        (String (sextet base64_alphabet ((x mod 4) * 16 + y / 16))
           (String (sextet base64_alphabet ((y mod 16) * 4 + z / 64))
              (String (sextet base64_alphabet (z mod 64)) (btoa rest))))
  end%N.

(** [s.replace(/c/g, by)] for a one-character pattern. *)
Fixpoint replace_all (c : ascii) (by_ : string) (s : string) : string :=
  match s with
  | EmptyString => ""
  | String x s' =>
      (if Ascii.eqb x c then by_ else String x "") +:+ replace_all c by_ s'
  end.

Definition base64urlEncode (buffer : list byte) : string :=
  let bytes := buffer in
  let binary := join (map fromCharCode bytes) in
  let base64 := btoa binary in
  replace_all "=" "" (replace_all "/" "_" (replace_all "+" "-" base64)).

Section Digest.

(** [crypto.subtle.digest('SHA-256', data)] of the platform. *)
Variable SHA256 : list byte -> list byte.

Definition sha256 (plain : string) : task string :=
  let data := list_byte_of_string plain in
  let hash := SHA256 data in
  ret (base64urlEncode hash).

Definition generatePKCEPair : task (string * string) :=
  codeVerifier <- sync (generateRandomString 128) ;;
  codeChallenge <- sha256 codeVerifier ;;
  ret (codeVerifier, codeChallenge).

End Digest.

Definition storePKCEVerifier (codeVerifier : string) (w : world) : world :=
  set_window
    (fmap (set_sessionStorage (insert "spotify_code_verifier" codeVerifier))) w.

Definition retrievePKCEVerifier (w : world) : option string * world :=
  match window w with
  | Some b =>
      let verifier := sessionStorage b !! "spotify_code_verifier" in
      (verifier,
       set_window (fmap (set_sessionStorage (delete "spotify_code_verifier"))) w)
  | None => (None, w)
  end.

Definition generateState (w : world) : string * world :=
  generateRandomString 16 w.

Definition storeState (state : string) (w : world) : world :=
  set_window (fmap (set_sessionStorage (insert "spotify_oauth_state" state))) w.

Definition retrieveState (w : world) : option string * world :=
  match window w with
  | Some b =>
      let state := sessionStorage b !! "spotify_oauth_state" in
      (state,
       set_window (fmap (set_sessionStorage (delete "spotify_oauth_state"))) w)
  | None => (None, w)
  end.

(** ** lib/config/spotify.js *)

Definition SPOTIFY_API_BASE_URL : string := "https://api.spotify.com/v1".
Definition SPOTIFY_ACCOUNTS_BASE_URL : string := "https://accounts.spotify.com".

Record endpoints_t : Type := {
  authorize : string;
  token : string;
  search : string;
  recommendations : string;
  audioFeatures : string;
  me : string
}.

Record config_t : Type := {
  clientId : option string;
  clientSecret : option string;
  redirectUri : string;
  scopes : string;
  endpoints : endpoints_t
}.

(** [parts.join(sep)] *)
Fixpoint join_with (sep : string) (parts : list string) : string :=
  match parts with
  | [] => ""
  | [p] => p
  | p :: rest => p +:+ sep +:+ join_with sep rest
  end.

Definition getSpotifyConfig (w : world) : config_t :=
  {| clientId := NEXT_PUBLIC_SPOTIFY_CLIENT_ID (env w);
     clientSecret :=
       match window w with
       | None => SPOTIFY_CLIENT_SECRET (env w)
       | Some _ => None
       end;
     redirectUri :=
       match window w with
       | Some b => origin b +:+ "/api/auth/callback/spotify"
       | None => "http://localhost:3000/api/auth/callback/spotify"
       end;
     scopes :=
       join_with " "
         ["user-read-private"; "user-read-email"; "playlist-read-private";
          "playlist-read-collaborative"; "streaming"; "user-read-playback-state";
          "user-modify-playback-state"];
     endpoints :=
       {| authorize := SPOTIFY_ACCOUNTS_BASE_URL +:+ "/authorize";
          token := SPOTIFY_ACCOUNTS_BASE_URL +:+ "/api/token";
          search := SPOTIFY_API_BASE_URL +:+ "/search";
          recommendations := SPOTIFY_API_BASE_URL +:+ "/recommendations";
          audioFeatures := SPOTIFY_API_BASE_URL +:+ "/audio-features";
          me := SPOTIFY_API_BASE_URL +:+ "/me" |} |}.

Definition missing_vars (required : list (string * option string)) : list string :=
  map fst (List.filter (fun kv => negb (truthy (snd kv))) required).

Definition validateSpotifyConfig (w : world) : exn + bool :=
  let config := getSpotifyConfig w in
  let required :=
    match window w with
    | Some _ => [("NEXT_PUBLIC_SPOTIFY_CLIENT_ID", clientId config)]
    | None => [("NEXT_PUBLIC_SPOTIFY_CLIENT_ID", clientId config);
               ("SPOTIFY_CLIENT_SECRET", clientSecret config)]
    end in
  let missing := missing_vars required in
  if (0 <? length missing)%nat
  then inl (Error ("Missing required Spotify environment variables: "
                   +:+ join_with ", " missing))
  else inr true.

(** ** lib/services/spotifyApi.js *)

(** [a === b] for a string-or-null [a] and a string [b]. *)
Definition strict_eq (a : option string) (b : string) : bool :=
  match a with
  | Some s => String.eqb s b
  | None => false
  end.

(** The text of the [error] member in a template literal. *)
Definition show_error_field (e : option error_field) : option string :=
  match e with
  | Some (ErrorText s) => Some s
  | Some (ErrorObject _) => Some "[object Object]"
  | None => None
  end.

(** [error.error?.message] *)
Definition error_message (e : option error_field) : option string :=
  match e with
  | Some (ErrorObject m) => m
  | _ => None
  end.

(** [{ ...tokens, refresh_token: v }] *)
Definition with_refresh_token (tokens : json) (v : option string) : json :=
  {| access_token := access_token tokens;
     refresh_token := v;
     expires_in := expires_in tokens;
     error_description := error_description tokens;
     error := error tokens;
     content := content tokens |}.

(** [s.replace(pat, by)] for a text pattern: the first occurrence only. *)
Fixpoint replace_first (pat by_ s : string) : string :=
  if String.prefix pat s
  then by_ +:+ String.substring (String.length pat) (String.length s - String.length pat) s
  else match s with
       | EmptyString => ""
       | String c s' => String c (replace_first pat by_ s')
       end.

(** The [options] argument of [fetch]. *)
Record options_t : Type := {
  o_method : option string;
  o_headers : gmap string string;
  o_body : list (string * string)
}.

Definition no_options : options_t :=
  {| o_method := None; o_headers := ∅; o_body := [] |}.

Module Api.

Definition null_client : SpotifyApiClient :=
  {| accessToken := None; refreshToken := None; tokenExpiry := None |}.

Definition clearStoredTokens (w : world) : world :=
  set_spotifyApi (fun _ => null_client)
    (set_window (fmap (set_localStorage (delete "spotify_tokens"))) w).

Definition loadTokensFromStorage (w : world) : world :=
  match window w with
  | Some b =>
      match localStorage b !! "spotify_tokens" with
      | Some (StoredTokens a r expiry) =>
          set_spotifyApi
            (fun _ => {| accessToken := a; refreshToken := r;
                         tokenExpiry := Some (new_Date expiry) |}) w
      | Some Unparsable => clearStoredTokens w
      | Some EmptyText => w
      | None => w
      end
  | None => w
  end.

Definition constructor (w : world) : world :=
  loadTokensFromStorage (set_spotifyApi (fun _ => null_client) w).

Definition saveTokensToStorage : task unit :=
  fun w =>
    let this := spotifyApi w in
    match window w with
    | Some _ =>
        if truthy (accessToken this) then
          let store expiry :=
            set_window
              (fmap (set_localStorage
                       (insert "spotify_tokens"
                          (StoredTokens (accessToken this) (refreshToken this) expiry)))) w in
          match tokenExpiry this with
          | None => Resolved (store None) tt
          | Some d =>
              match toISOString d with
              | inl e => Rejected w e
              | inr iso => Resolved (store (Some iso)) tt
              end
          end
        else Resolved w tt
    | None => Resolved w tt
    end.

Definition isAuthenticated : task bool :=
  read (fun w =>
          let this := spotifyApi w in
          truthy (accessToken this)
          && match tokenExpiry this with
             | Some d => now_lt (now w) d
             | None => false
             end).

Definition getAccessToken : task (option string) :=
  read (fun w => accessToken (spotifyApi w)).

Definition initiateAuth : task address :=
  state <- sync generateState ;;
  perform (storeState state) ;;
  checked validateSpotifyConfig ;;
  config <- read getSpotifyConfig ;;
  let params :=
    [("response_type", "code");
     ("client_id", show (clientId config));
     ("scope", scopes config);
     ("redirect_uri", redirectUri config);
     ("state", state)] in
  let authUrl := {| base := authorize (endpoints config); query := params |} in
  perform (set_window (fmap (set_href authUrl))) ;;
  ret authUrl.

Definition setTokens (tokens : json) : task unit :=
  perform (fun w =>
    set_spotifyApi
      (fun _ =>
         {| accessToken := access_token tokens;
            refreshToken := refresh_token tokens;
            tokenExpiry :=
              Some (new_Date (fmap (fun s => (now w + s * 1000)%Z) (expires_in tokens))) |})
      w) ;;
  saveTokensToStorage.

Definition form_headers : gmap string string :=
  {[ "Content-Type" := "application/x-www-form-urlencoded" ]}.

(** An identifier that the module neither declares nor imports and that is
    no global of the platform: evaluating it throws a ReferenceError. *)
Definition unbound {A} (name : string) : task A :=
  throw (ReferenceError (name +:+ " is not defined")).

(** The import line of [spotifyApi.js] names [generateState] and
    [storeState] only: [retrieveState] and [retrievePKCEVerifier] are unbound
    in this module, although [lib/auth/pkce.js] exports functions of these
    names. *)
Definition handleAuthCallback (code state : string) : task bool :=
  storedState <- unbound "retrieveState" ;;
  if negb (strict_eq storedState state)
  then throw (Error "Invalid state parameter")
  else
    codeVerifier <- unbound "retrievePKCEVerifier" ;;
    if negb (truthy codeVerifier)
    then throw (Error "Missing PKCE code verifier")
    else
      try_catch
        (config <- read getSpotifyConfig ;;
         response <- fetch
           {| url := token (endpoints config);
              method := "POST";
              headers := form_headers;
              form := [("grant_type", "authorization_code");
                       ("code", code);
                       ("redirect_uri", redirectUri config);
                       ("client_id", show (clientId config));
                       ("code_verifier", show codeVerifier)] |} ;;
         if negb (ok response)
         then
           err <- response_json response ;;
           throw (Error ("Token exchange failed: "
                         +:+ show (or_else (error_description err)
                                           (show_error_field (error err)))))
         else
           tokens <- response_json response ;;
           setTokens tokens ;;
           ret true)
        (fun e => throw e).

Definition refresh_request (w : world) : request :=
  {| url := token (endpoints (getSpotifyConfig w));
     method := "POST";
     headers := form_headers;
     form := [("grant_type", "refresh_token");
              ("refresh_token", show (refreshToken (spotifyApi w)));
              ("client_id", show (clientId (getSpotifyConfig w)))] |}.

Definition refreshAccessToken : task bool :=
  this <- read spotifyApi ;;
  if negb (truthy (refreshToken this))
  then throw (Error "No refresh token available")
  else
    try_catch
      (req <- read refresh_request ;;
       response <- fetch req ;;
       if negb (ok response)
       then
         err <- response_json response ;;
         throw (Error ("Token refresh failed: "
                       +:+ show (or_else (error_description err)
                                         (show_error_field (error err)))))
       else
         tokens <- response_json response ;;
         this' <- read spotifyApi ;;
         setTokens
           (with_refresh_token tokens
              (or_else (refresh_token tokens) (refreshToken this'))) ;;
         ret true)
      (fun e => perform clearStoredTokens ;; throw e).

Definition api_request (endpoint : string) (options : options_t) (w : world) : request :=
  {| url :=
       if String.prefix "http" endpoint then endpoint
       else replace_first "/search" "" (search (endpoints (getSpotifyConfig w)))
            +:+ endpoint;
     method := default "GET" (o_method options);
     headers :=
       o_headers options
       ∪ {[ "Authorization" := "Bearer " +:+ show (accessToken (spotifyApi w));
            "Content-Type" := "application/json" ]};
     form := o_body options |}.

Definition unknown_error : json :=
  {| access_token := None; refresh_token := None; expires_in := None;
     error_description := None; error := Some (ErrorText "Unknown error");
     content := "" |}.

(** The function calls itself after a refresh; [fuel] bounds the unfolding
    of that recursion in the model. *)
Fixpoint makeApiRequest (fuel : nat) (endpoint : string) (options : options_t)
    : task json :=
  match fuel with
  | O => fun w => Cutoff w
  | S fuel' =>
      needs_refresh <- read (fun w =>
        let this := spotifyApi w in
        match tokenExpiry this with
        | Some d => now_ge (now w) d
        | None => false
        end && truthy (refreshToken this)) ;;
      (if needs_refresh : bool then (refreshAccessToken ;; ret tt) else ret tt) ;;
      this <- read spotifyApi ;;
      if negb (truthy (accessToken this))
      then throw (Error "No access token available. Please authenticate first.")
      else
        req <- read (api_request endpoint options) ;;
        response <- fetch req ;;
        if (status response =? 401)%Z
        then
          this' <- read spotifyApi ;;
          if truthy (refreshToken this')
          then (refreshAccessToken ;; makeApiRequest fuel' endpoint options)
          else (perform clearStoredTokens ;; throw (Error "Authentication required"))
        else if negb (ok response)
        then
          err <- try_catch (response_json response) (fun _ => ret unknown_error) ;;
          throw (Error ("Spotify API error: "
                        +:+ show (or_else (error_message (error err))
                                    (or_else (show_error_field (error err))
                                             (Some (statusText response))))))
        else response_json response
  end.

Definition logout : task unit := perform clearStoredTokens.

Definition getCurrentUser (fuel : nat) : task json :=
  makeApiRequest fuel "/me" no_options.

End Api.

(** ** lib/contexts/SpotifyAuthContext.jsx *)

Module AuthContext.

(** [useState] initial values. *)
Definition initial : AuthState :=
  {| s_isAuthenticated := false; s_isLoading := true; s_error := None;
     s_user := None; s_accessToken := None |}.

Definition setIsAuthenticated (v : bool) : task unit :=
  perform (set_react (fun s =>
    {| s_isAuthenticated := v; s_isLoading := s_isLoading s; s_error := s_error s;
       s_user := s_user s; s_accessToken := s_accessToken s |})).

Definition setIsLoading_now (v : bool) (w : world) : world :=
  set_react (fun s =>
    {| s_isAuthenticated := s_isAuthenticated s; s_isLoading := v; s_error := s_error s;
       s_user := s_user s; s_accessToken := s_accessToken s |}) w.

Definition setIsLoading (v : bool) : task unit := perform (setIsLoading_now v).

Definition setError (v : option string) : task unit :=
  perform (set_react (fun s =>
    {| s_isAuthenticated := s_isAuthenticated s; s_isLoading := s_isLoading s;
       s_error := v; s_user := s_user s; s_accessToken := s_accessToken s |})).

Definition setUser (v : option json) : task unit :=
  perform (set_react (fun s =>
    {| s_isAuthenticated := s_isAuthenticated s; s_isLoading := s_isLoading s;
       s_error := s_error s; s_user := v; s_accessToken := s_accessToken s |})).

Definition setAccessToken (v : option string) : task unit :=
  perform (set_react (fun s =>
    {| s_isAuthenticated := s_isAuthenticated s; s_isLoading := s_isLoading s;
       s_error := s_error s; s_user := s_user s; s_accessToken := v |})).

Section Unfolding.

(** Bound on the unfolding of [makeApiRequest]'s self-call. *)
Variable fuel : nat.

Definition refreshToken : task unit :=
  try_catch
    (Api.refreshAccessToken ;;
     token <- Api.getAccessToken ;;
     setAccessToken token ;;
     userProfile <- Api.getCurrentUser fuel ;;
     setUser (Some userProfile) ;;
     setIsAuthenticated true ;;
     setError None)
    (fun e =>
       setError (Some (message e)) ;;
       setIsAuthenticated false ;;
       setAccessToken None ;;
       setUser None).

Definition checkAuthStatus : task unit :=
  try_finally
    (try_catch
       (setIsLoading true ;;
        authenticated <- Api.isAuthenticated ;;
        setIsAuthenticated authenticated ;;
        if authenticated : bool
        then
          token <- Api.getAccessToken ;;
          setAccessToken token ;;
          try_catch
            (userProfile <- Api.getCurrentUser fuel ;;
             setUser (Some userProfile))
            (fun _ => refreshToken)
        else ret tt)
       (fun e =>
          setError (Some (message e)) ;;
          setIsAuthenticated false ;;
          setAccessToken None ;;
          setUser None))
    (setIsLoading_now false).

Definition handleAuthCallback (code state : string) : task unit :=
  try_finally
    (try_catch
       (setIsLoading true ;;
        setError None ;;
        Api.handleAuthCallback code state ;;
        token <- Api.getAccessToken ;;
        userProfile <- Api.getCurrentUser fuel ;;
        setIsAuthenticated true ;;
        setAccessToken token ;;
        setUser (Some userProfile))
       (fun e =>
          setError (Some (message e)) ;;
          setIsAuthenticated false ;;
          setAccessToken None ;;
          setUser None))
    (setIsLoading_now false).

End Unfolding.

Definition login : task unit :=
  try_catch
    (setError None ;;
     Api.initiateAuth ;;
     ret tt)
    (fun e => setError (Some (message e))).

Definition logout : task unit :=
  Api.logout ;;
  setIsAuthenticated false ;;
  setAccessToken None ;;
  setUser None ;;
  setError None.

(** The refresh effect arms its 50-minute interval under this condition;
    every firing of the interval calls [refreshToken]. *)
Definition refreshIntervalArmed (s : AuthState) : bool :=
  s_isAuthenticated s && truthy (s_accessToken s).

Definition REFRESH_INTERVAL_MS : Z := 50 * 60 * 1000.

(** The module is loaded (the singleton is constructed), the provider
    mounts with its initial state and its mount effect runs. *)
Definition start (fuel : nat) : task unit :=
  perform Api.constructor ;;
  perform (set_react (fun _ => initial)) ;;
  checkAuthStatus fuel.

End AuthContext.

(** ** app/api/auth/callback/spotify/route.js *)

Module CallbackRoute.

Record query_t : Type := {
  q_code : option string;
  q_state : option string;
  q_error : option string
}.

Record cookie : Type := {
  value : option string;
  httpOnly : bool;
  secure : bool;
  sameSite : string;
  maxAge : option Z
}.

(** The cookies set on a response once the tokens have arrived. *)
Definition token_cookies (tokenData : json) (w : world) : list (string * cookie) :=
  [("spotify_access_token",
    {| value := access_token tokenData;
       httpOnly := true;
       secure := strict_eq (NODE_ENV (env w)) "production";
       sameSite := "lax";
       maxAge := expires_in tokenData |})]
  ++ (if truthy (refresh_token tokenData)
      then [("spotify_refresh_token",
             {| value := refresh_token tokenData;
                httpOnly := true;
                secure := strict_eq (NODE_ENV (env w)) "production";
                sameSite := "lax";
                maxAge := Some (60 * 60 * 24 * 30)%Z |})]
      else []).

(** [NextResponse.redirect(..)] with the cookies set on it. *)
Record redirect : Type := {
  location : address;
  cookies : list (string * cookie)
}.

Definition redirect_to (a : address) : redirect :=
  {| location := a; cookies := [] |}.

Definition exchange_request (code : option string) (w : world) : request :=
  let config := getSpotifyConfig w in
  {| url := token (endpoints config);
     method := "POST";
     headers := Api.form_headers;
     form := [("grant_type", "authorization_code");
              ("code", show code);
              ("redirect_uri", redirectUri config);
              ("client_id", show (clientId config));
              ("client_secret", show (clientSecret config))] |}.

(** The handler that the catalog service redirects the browser to. *)
Definition GET (q : query_t) : task redirect :=
  try_catch
    (checked validateSpotifyConfig ;;
     let code := q_code q in
     let state := q_state q in
     let err := q_error q in
     if truthy err
     then ret (redirect_to {| base := "/"; query := [("error", show err)] |})
     else if negb (truthy code) || negb (truthy state)
     then ret (redirect_to {| base := "/"; query := [("error", "missing_parameters")] |})
     else
       req <- read (exchange_request code) ;;
       tokenResponse <- fetch req ;;
       if negb (ok tokenResponse)
       then ret (redirect_to
                   {| base := "/"; query := [("error", "token_exchange_failed")] |})
       else
         tokenData <- response_json tokenResponse ;;
         cookies <- read (token_cookies tokenData) ;;
         ret {| location := {| base := "/"; query := [] |}; cookies := cookies |})
    (fun _ => ret (redirect_to
                     {| base := "/"; query := [("error", "callback_handler_error")] |})).

(** [NextResponse.json(..)] with its status and the cookies set on it. *)
Record json_response : Type := {
  r_status : Z;
  r_success : bool;
  r_error : option string;
  r_cookies : list (string * cookie)
}.

Definition failure (code : Z) (err : option string) : json_response :=
  {| r_status := code; r_success := false; r_error := err; r_cookies := [] |}.

(** The handler that the callback page posts the code and the state to. *)
Definition POST (q : query_t) : task json_response :=
  try_catch
    (checked validateSpotifyConfig ;;
     let code := q_code q in
     let state := q_state q in
     let err := q_error q in
     if truthy err
     then ret (failure 400 err)
     else if negb (truthy code) || negb (truthy state)
     then ret (failure 400 (Some "missing_parameters"))
     else
       req <- read (exchange_request code) ;;
       tokenResponse <- fetch req ;;
       if negb (ok tokenResponse)
       then ret (failure 400 (Some "token_exchange_failed"))
       else
         tokenData <- response_json tokenResponse ;;
         cookies <- read (token_cookies tokenData) ;;
         ret {| r_status := 200; r_success := true; r_error := None;
                r_cookies := cookies |})
    (fun _ => ret (failure 500 (Some "callback_handler_error"))).

End CallbackRoute.

(** ** The event loop *)

(** Calls suspended at a [fetch], each with the continuation that the reply
    to its own request resumes, over the world they share. *)
Record loop : Type := {
  shared : world;
  waiting : list (reply -> world -> async unit)
}.

Definition absorb (r : async unit) (others : list (reply -> world -> async unit)) : loop :=
  match r with
  | Resolved w _ | Rejected w _ | Cutoff w => {| shared := w; waiting := others |}
  | Await w k => {| shared := w; waiting := others ++ [k] |}
  end.

(** A call is made: it runs up to its first suspension. *)
Definition spawn (m : task unit) (l : loop) : loop :=
  absorb (m (shared l)) (waiting l).

(** The reply to the request of the [i]-th suspended call arrives. *)
Definition deliver (i : nat) (a : arrival) (l : loop) : loop :=
  match waiting l !! i with
  | Some k => absorb (k (snd a) (elapse (fst a) (shared l))) (delete i (waiting l))
  | None => l
  end.

(** A call whose result is not used. *)
Definition void {A} (m : task A) : task unit := (m ;; ret tt).

Definition is_refresh_request (r : request) : bool :=
  String.eqb (url r) (SPOTIFY_ACCOUNTS_BASE_URL +:+ "/api/token")
  && bool_decide (("grant_type", "refresh_token") ∈ form r).

Definition is_exchange_request (r : request) : bool :=
  String.eqb (url r) (SPOTIFY_ACCOUNTS_BASE_URL +:+ "/api/token")
  && bool_decide (("grant_type", "authorization_code") ∈ form r).

Definition is_token_request (r : request) : bool :=
  String.eqb (url r) (SPOTIFY_ACCOUNTS_BASE_URL +:+ "/api/token").


(** ** lib/components/AuthGuard.jsx *)

Module AuthGuard.

(** What a guard returns: its [children], a node given by the caller in
    another property, one of its own built-in elements, or [null]. *)
Inductive view : Type :=
| Children
| Given (node : string)
| Spinner
| LoginPrompt
| Null.

(** [node || builtin] for a node property whose default is [null]. *)
Definition or_builtin (node : option string) (builtin : view) : view :=
  if truthy node then Given (show node) else builtin.

(** [return node] for such a property. *)
Definition render (node : option string) : view :=
  match node with
  | Some n => Given n
  | None => Null
  end.

Definition RequireAuth (fallback : option string) (s : AuthState) : view :=
  if s_isLoading s then Spinner
  else if negb (s_isAuthenticated s) then or_builtin fallback LoginPrompt
  else Children.

Definition AuthenticatedOnly (s : AuthState) : view :=
  if s_isLoading s || negb (s_isAuthenticated s) then Null else Children.

Definition UnauthenticatedOnly (s : AuthState) : view :=
  if s_isLoading s || s_isAuthenticated s then Null else Children.

Definition AuthStatus (loading authenticated unauthenticated : option string)
    (s : AuthState) : view :=
  if s_isLoading s then or_builtin loading Spinner
  else if s_isAuthenticated s then render authenticated
  else render unauthenticated.

(** [ProtectedRoute] may navigate while it renders. *)
Definition ProtectedRoute (redirectTo loadingComponent unauthorizedComponent : option string)
    (w : world) : view * world :=
  let s := react w in
  if s_isLoading s then (or_builtin loadingComponent Spinner, w)
  else if negb (s_isAuthenticated s) then
    match window w with
    | Some _ =>
        if truthy redirectTo
        then (Null, set_window (fmap (set_href {| base := show redirectTo; query := [] |})) w)
        else (or_builtin unauthorizedComponent LoginPrompt, w)
    | None => (or_builtin unauthorizedComponent LoginPrompt, w)
    end
  else (Children, w).

End AuthGuard.

(** ** app/api/spotify/me/route.js *)

Module MeRoute.

Inductive body_t : Type :=
| ErrorBody (err : string)
| UserData (j : json).

(** [NextResponse.json(body, { status })] *)
Record reply_t : Type := {
  m_status : Z;
  m_body : body_t
}.

Definition me_request (accessToken : option string) : request :=
  {| url := "https://api.spotify.com/v1/me";
     method := "GET";
     headers := {[ "Authorization" := "Bearer " +:+ show accessToken;
                   "Content-Type" := "application/json" ]};
     form := [] |}.

(** [NextResponse.json(body, { status })]: the constructor of a response
    refuses a status outside 200-599 with a RangeError, and a body together
    with a status that allows none (101, 103, 204, 205, 304) with a
    TypeError. *)
Definition null_body_status (status : Z) : bool :=
  existsb (Z.eqb status) [101; 103; 204; 205; 304]%Z.

Definition json_reply (status : Z) (body : body_t) : task reply_t :=
  if negb ((200 <=? status) && (status <=? 599))%Z
  then throw (RangeError "status must be in the range of 200 to 599, inclusive")
  else if null_body_status status
  then throw (TypeError "Invalid response status code")
  else ret {| m_status := status; m_body := body |}.

(** The handler, given the cookies of the incoming request. *)
Definition GET (cookies : gmap string string) : task reply_t :=
  try_catch
    (let accessToken := cookies !! "spotify_access_token" in
     if negb (truthy accessToken)
     then json_reply 401 (ErrorBody "Not authenticated")
     else
       response <- fetch (me_request accessToken) ;;
       if negb (ok response)
       then
         if (status response =? 401)%Z
         then json_reply 401 (ErrorBody "Token expired")
         else json_reply (status response) (ErrorBody "Spotify API error")
       else
         userData <- response_json response ;;
         json_reply 200 (UserData userData))
    (fun _ => json_reply 500 (ErrorBody "Internal server error")).

End MeRoute.

(** ** app/callback/page.js *)

Module CallbackPage.

(** [router.push(..)] *)
Definition push (a : address) : task unit :=
  perform (set_window (fmap (set_href a))).

Definition post_request (code state : option string) : request :=
  {| url := "/api/auth/callback/spotify";
     method := "POST";
     headers := {[ "Content-Type" := "application/json" ]};
     form := [("code", show code); ("state", show state)] |}.

Definition handleCallback (q : CallbackRoute.query_t) : task unit :=
  let code := CallbackRoute.q_code q in
  let state := CallbackRoute.q_state q in
  let err := CallbackRoute.q_error q in
  if truthy err
  then push {| base := "/"; query := [("error", show err)] |}
  else if truthy code && truthy state
  then
    try_catch
      (response <- fetch (post_request code state) ;;
       if ok response
       then push {| base := "/"; query := [] |}
       else push {| base := "/"; query := [("error", "token_exchange_failed")] |})
      (fun _ => push {| base := "/"; query := [("error", "callback_error")] |})
  else push {| base := "/"; query := [("error", "missing_parameters")] |}.

End CallbackPage.

(** ** lib/services/recommendationService.js *)

Module Recommendation.

Record album : Type := {
  album_id : string;
  album_name : string
}.

(** A track, with [None] for a track whose [album] is null or undefined. *)
Record track : Type := {
  track_name : string;
  track_album : option album
}.

(** A [Map] keeps its entries in the order in which their keys were first
    set. *)
Definition Map : Type := list (string * album).

Definition has (m : Map) (k : string) : bool :=
  existsb (fun kv => String.eqb (fst kv) k) m.

Definition set (m : Map) (k : string) (v : album) : Map :=
  if has m k
  then map (fun kv => if String.eqb (fst kv) k then (k, v) else kv) m
  else m ++ [(k, v)].

Definition values (m : Map) : list album := map snd m.

(** The body of the [forEach]. *)
Definition visit (albumMap : Map) (t : track) : Map :=
  match track_album t with
  | Some a =>
      if negb (has albumMap (album_id a))
      then set albumMap (album_id a) a
      else albumMap
  | None => albumMap
  end.

Definition extractAlbumsFromTracks (tracks : list track) : list album :=
  values (fold_left visit tracks []).

End Recommendation.

(** ** Reference definitions

    The properties below compare the code with these definitions, which
    follow the wording of the specification and of the RFCs it cites. *)

(** The unreserved URL-safe alphabet: A-Z, a-z, 0-9, '-', '.', '_', '~'. *)
Definition unreserved (c : ascii) : bool :=
  let n := nat_of_ascii c in
  ((65 <=? n) && (n <=? 90)) || ((97 <=? n) && (n <=? 122))
  || ((48 <=? n) && (n <=? 57))
  || (n =? 45) || (n =? 46) || (n =? 95) || (n =? 126).

Definition base64url_alphabet : string :=
  "ABCDEFGHIJKLMNOPQRSTUVWXYZabcdefghijklmnopqrstuvwxyz0123456789-_".

(** The base64url encoding without padding (RFC 4648, section 5, as used by
    RFC 7636): every three bytes give four characters of the URL-safe
    alphabet; one or two remaining bytes give two or three characters and no
    ['='] is written. *)
Fixpoint base64url_nopad (bs : list byte) : string :=
  match bs with
  | [] => ""
  | [a] =>
      let x := Byte.to_N a in
      String (sextet base64url_alphabet (x / 4))
        (String (sextet base64url_alphabet ((x mod 4) * 16)) "")
  | [a; b] =>
      let x := Byte.to_N a in
      let y := Byte.to_N b in
      String (sextet base64url_alphabet (x / 4))
        (String (sextet base64url_alphabet ((x mod 4) * 16 + y / 16))
           (String (sextet base64url_alphabet ((y mod 16) * 4)) ""))
  | a :: b :: c :: rest =>
      let x := Byte.to_N a in
      let y := Byte.to_N b in
      let z := Byte.to_N c in
      String (sextet base64url_alphabet (x / 4))
        (String (sextet base64url_alphabet ((x mod 4) * 16 + y / 16))
           (String (sextet base64url_alphabet ((y mod 16) * 4 + z / 64))
              (String (sextet base64url_alphabet (z mod 64)) (base64url_nopad rest))))
  end%N.

(** The three replacements of [base64urlEncode], in their order. *)
Definition urlsafe (base64 : string) : string :=
  replace_all "=" "" (replace_all "/" "_" (replace_all "+" "-" base64)).

(** The request to the token endpoint failed: the network gave no response,
    or the response has a status outside 200-299. *)
Definition request_failed (rep : reply) : bool :=
  match rep with
  | NetworkError => true
  | Arrived r => negb (ok r)
  end.

(** No credential is held, neither by the client object nor in the durable
    store. *)
Definition no_credential (w : world) : Prop :=
  spotifyApi w = Api.null_client
  /\ forall b, window w = Some b -> localStorage b !! "spotify_tokens" = None.

(** The world in which the continuation of a [fetch] of [req], issued in
    [w], runs when the reply arrives after [dt] milliseconds. *)
Definition after_fetch (req : request) (dt : nat) (w : world) : world :=
  elapse dt (set_sent (fun l => l ++ [req]) w).

(** The test that [makeApiRequest] makes before it dispatches: the expiry
    has passed and a refresh token is held. *)
Definition needs_refresh (w : world) : bool :=
  match tokenExpiry (spotifyApi w) with
  | Some d => now_ge (now w) d
  | None => false
  end && truthy (refreshToken (spotifyApi w)).

(** The gateway dispatches at once: no refresh is due and an access token is
    held. *)
Definition dispatches (w : world) : Prop :=
  needs_refresh w = false /\ truthy (accessToken (spotifyApi w)) = true.

(** [dispatched script w w0 rest]: a call of [makeApiRequest] made in [w]
    against the replies [script] sends its request to the catalog service in
    the world [w0], with the replies [rest] still to come: at once, or after
    the refresh of an expired credential. *)
Inductive dispatched : list arrival -> world -> world -> list arrival -> Prop :=
| dispatched_at_once (script : list arrival) (w : world) :
    dispatches w ->
    dispatched script w w script
| dispatched_after_refresh (script rest : list arrival) (w w0 : world) :
    needs_refresh w = true ->
    exec Api.refreshAccessToken script w = (w0, Returned true, rest) ->
    truthy (accessToken (spotifyApi w0)) = true ->
    dispatched script w w0 rest.

(** ** Sample worlds and replies *)

Definition sample_browser : browser :=
  {| localStorage :=
       {[ "spotify_tokens" :=
            StoredTokens (Some "access-1") (Some "refresh-1") (Some 3600000%Z) ]};
     sessionStorage := ∅;
     origin := "http://localhost:3000";
     href := None |}.

(** A browser session that holds a valid credential, with the provider
    authenticated. *)
Definition sample_world : world :=
  {| now := 1000;
     env := {| NEXT_PUBLIC_SPOTIFY_CLIENT_ID := Some "client-id";
               SPOTIFY_CLIENT_SECRET := None;
               NODE_ENV := Some "production" |};
     window := Some sample_browser;
     entropy := fun i => Byte.x2a;
     drawn := 0;
     spotifyApi := {| accessToken := Some "access-1";
                      refreshToken := Some "refresh-1";
                      tokenExpiry := Some (DateAt 3600000) |};
     react := {| s_isAuthenticated := true; s_isLoading := false; s_error := None;
                 s_user := None; s_accessToken := Some "access-1" |};
     sent := [] |}.

Definition document (text : string) : json :=
  {| access_token := None; refresh_token := None; expires_in := None;
     error_description := None; error := None; content := text |}.

Definition token_document (a r : option string) : json :=
  {| access_token := a; refresh_token := r; expires_in := Some 3600%Z;
     error_description := None; error := None; content := "" |}.

Definition unauthorized : response :=
  {| status := 401; statusText := "Unauthorized"; payload := NotJson "" |}.


Definition success (j : json) : response :=
  {| status := 200; statusText := "OK"; payload := Json j |}.

(** The catalog service rejects the call twice, each refresh in between
    succeeds, and the third call is answered. *)
Definition two_rejections : list arrival :=
  [(10, Arrived unauthorized);
   (10, Arrived (success (token_document (Some "access-2") None)));
   (10, Arrived unauthorized);
   (10, Arrived (success (token_document (Some "access-3") None)));
   (10, Arrived (success (document "profile")))].

(** A gateway call is in flight; its reply, a 401, arrives and in the same
    tick the provider's refresh interval fires. *)
Definition timer_and_401_same_tick : loop :=
  spawn (AuthContext.refreshToken 2)
    (deliver 0 (10, Arrived unauthorized)
       (spawn (void (Api.makeApiRequest 2 "/me" no_options))
          {| shared := sample_world; waiting := [] |})).

(** Requests sent so far to the token endpoint for a refresh, and requests
    sent so far to the catalog service itself. *)
Definition refresh_calls (w : world) : nat :=
  length (List.filter is_refresh_request (sent w)).

Definition gateway_calls (w : world) : nat :=
  length (List.filter (fun r => negb (is_token_request r)) (sent w)).

(** A browser in which a login was started: the state and a verifier are
    stored, and no credential is held yet. *)
Definition callback_world : world :=
  {| now := 1000;
     env := {| NEXT_PUBLIC_SPOTIFY_CLIENT_ID := Some "client-id";
               SPOTIFY_CLIENT_SECRET := None;
               NODE_ENV := Some "production" |};
     window :=
       Some {| localStorage := ∅;
               sessionStorage :=
                 {[ "spotify_oauth_state" := "state-1";
                    "spotify_code_verifier" := "verifier-1" ]};
               origin := "http://localhost:3000";
               href := None |};
     entropy := fun i => Byte.x2a;
     drawn := 16;
     spotifyApi := Api.null_client;
     react := AuthContext.initial;
     sent := [] |}.

Definition token_reply : list arrival :=
  [(10, Arrived (success (token_document (Some "access-1") (Some "refresh-1"))))].

(** The page is loaded again two hours later: the stored credential, with
    its refresh token, expired an hour ago. *)
Definition restart_world : world :=
  {| now := 7200000;
     env := {| NEXT_PUBLIC_SPOTIFY_CLIENT_ID := Some "client-id";
               SPOTIFY_CLIENT_SECRET := None;
               NODE_ENV := Some "production" |};
     window := Some sample_browser;
     entropy := fun i => Byte.x2a;
     drawn := 0;
     spotifyApi := Api.null_client;
     react := AuthContext.initial;
     sent := [] |}.

(** The server, and a callback whose state was never issued by any login. *)
Definition server_world : world :=
  {| now := 1000;
     env := {| NEXT_PUBLIC_SPOTIFY_CLIENT_ID := Some "client-id";
               SPOTIFY_CLIENT_SECRET := Some "client-secret";
               NODE_ENV := Some "production" |};
     window := None;
     entropy := fun i => Byte.x2a;
     drawn := 0;
     spotifyApi := Api.null_client;
     react := AuthContext.initial;
     sent := [] |}.

Definition forged_callback : CallbackRoute.query_t :=
  {| CallbackRoute.q_code := Some "code-1";
     CallbackRoute.q_state := Some "forged";
     CallbackRoute.q_error := None |}.

(** [n] rounds in which the call is rejected with a 401 and the refresh that
    follows succeeds. *)
Definition rejected_round : list arrival :=
  [(10, Arrived unauthorized);
   (10, Arrived (success (token_document (Some "access-2") None)))].

Fixpoint rejected_rounds (n : nat) : list arrival :=
  match n with
  | O => []
  | S n' => rejected_round ++ rejected_rounds n'
  end.

(** The octets of the SHA-256 digest in the example of RFC 7636,
    appendix B. *)
Definition rfc7636_digest : list byte :=
  [x13; xd3; x1e; x96; x1a; x1a; xd8; xec; x2f; x16; xb1; x0c; x4c; x98; x2e; x08;
   x76; xa8; x78; xad; x6d; xf1; x44; x56; x6e; xe1; x89; x4a; xcb; x70; xf9; xc3].

(** ** Definitions for the further properties *)

(** The alphabet of base64url: A-Z, a-z, 0-9, '-', '_'. *)
Definition base64url_char (c : ascii) : bool :=
  let n := nat_of_ascii c in
  ((65 <=? n) && (n <=? 90)) || ((97 <=? n) && (n <=? 122))
  || ((48 <=? n) && (n <=? 57)) || (n =? 45) || (n =? 95).

(** The 256 values of a byte. *)
Definition all_bytes : list byte := omap Byte.of_nat (seq 0 256).

(** A world whose random source gives the byte [x] whatever is drawn. *)
Definition world_drawing (x : byte) : world :=
  {| now := 0;
     env := {| NEXT_PUBLIC_SPOTIFY_CLIENT_ID := None; SPOTIFY_CLIENT_SECRET := None;
               NODE_ENV := None |};
     window := None;
     entropy := fun _ => x;
     drawn := 0;
     spotifyApi := Api.null_client;
     react := AuthContext.initial;
     sent := [] |}.

(** The bytes from which [generateRandomString] makes the [i]-th character of
    its alphabet. *)
Definition bytes_giving (i : nat) : list byte :=
  List.filter
    (fun x => String.eqb (fst (generateRandomString 1 (world_drawing x)))
                         (char_at possible i))
    all_bytes.

(** A browser whose stored entry cannot be parsed. *)
Definition unreadable_browser : browser :=
  {| localStorage := {[ "spotify_tokens" := Unparsable ]};
     sessionStorage := ∅;
     origin := "http://localhost:3000";
     href := None |}.

Definition unreadable_world : world :=
  set_window (fun _ => Some unreadable_browser) restart_world.

(** A browser whose stored entry is the text [123]: it parses, to a value
    without members. *)
Definition number_browser : browser :=
  {| localStorage := {[ "spotify_tokens" := StoredTokens None None None ]};
     sessionStorage := ∅;
     origin := "http://localhost:3000";
     href := None |}.

Definition number_world : world :=
  set_window (fun _ => Some number_browser) restart_world.


(** The stored credential has expired and a refresh token is held. *)
Definition expired_world : world :=
  set_now (fun _ => 7200000%Z) sample_world.

(** A token document without [expires_in]. *)
Definition token_document_without_expiry : json :=
  {| access_token := Some "access-1"; refresh_token := Some "refresh-1";
     expires_in := None; error_description := None; error := None; content := "" |}.

(** What the browser receives when a route answers with a JSON response. *)
Definition http_reply (jr : CallbackRoute.json_response) : response :=
  {| status := CallbackRoute.r_status jr; statusText := "";
     payload := Json (document "") |}.

Definition callback_browser : browser :=
  {| localStorage := ∅;
     sessionStorage :=
       {[ "spotify_oauth_state" := "state-1";
          "spotify_code_verifier" := "verifier-1" ]};
     origin := "http://localhost:3000";
     href := None |}.

(** The address the browser shows. *)
Definition shown (w : world) : option address :=
  match window w with
  | Some b => href b
  | None => None
  end.

(** The body that the callback page posts to the route. *)
Definition posted_body (q : CallbackRoute.query_t) : CallbackRoute.query_t :=
  {| CallbackRoute.q_code := CallbackRoute.q_code q;
     CallbackRoute.q_state := CallbackRoute.q_state q;
     CallbackRoute.q_error := None |}.




Definition signed_out (s : AuthState) : Prop :=
  s_isLoading s = false
  /\ s_isAuthenticated s = false
  /\ s_user s = None
  /\ s_accessToken s = None.

(** The sample browser session with a random source whose first sixteen
    bytes differ from the following ones. *)
Definition changing_world : world :=
  {| now := now sample_world;
     env := env sample_world;
     window := Some sample_browser;
     entropy := fun i => if (i <? 16)%nat then Byte.x2a else Byte.x2b;
     drawn := 0;
     spotifyApi := spotifyApi sample_world;
     react := react sample_world;
     sent := [] |}.

(** * Properties *)

(** ** Strings and lists *)

Lemma append_cons (c : ascii) (s t : string) : String c s +:+ t = String c (s +:+ t).
Proof. reflexivity. Qed.

Lemma length_append (s t : string) :
  String.length (s +:+ t) = String.length s + String.length t.
Proof. induction s as [|c s IH]; simpl; [reflexivity | now rewrite IH]. Qed.

Lemma list_ascii_append (s t : string) :
  list_ascii_of_string (s +:+ t) = list_ascii_of_string s ++ list_ascii_of_string t.
Proof. induction s as [|c s IH]; simpl; [reflexivity | now rewrite IH]. Qed.

Lemma append_assoc (s t u : string) : (s +:+ t) +:+ u = s +:+ (t +:+ u).
Proof. induction s as [|c s IH]; [reflexivity | now rewrite !append_cons, IH]. Qed.

(** Induction on a list three elements at a time, as the encoders read it. *)
Lemma list_ind3 {A} (P : list A -> Prop) :
  P [] ->
  (forall a, P [a]) ->
  (forall a b, P [a; b]) ->
  (forall a b c l, P l -> P (a :: b :: c :: l)) ->
  forall l, P l.
Proof.
  intros H0 H1 H2 H3 l.
  assert (H : P l /\ (forall a, P (a :: l)) /\ (forall a b, P (a :: b :: l))).
  { induction l as [|x l (IH0 & IH1 & IH2)].
    - repeat split; auto.
    - repeat split; auto. }
  apply H.
Qed.

(** A property of all numbers below a bound, decided by enumeration. *)
Lemma below_forallb (P : nat -> bool) (n : nat) :
  forallb P (seq 0 n) = true -> forall i, i < n -> P i = true.
Proof.
  intros H i Hi. rewrite forallb_forall in H. apply H, in_seq. lia.
Qed.

(** ** Running composed calls *)

Lemma run_bind {A B} (r : async A) (f : A -> task B) (script : list arrival) :
  run script (bind_async r f)
  = match run script r with
    | (w, Returned a, rest) => run rest (f a w)
    | (w, Thrown e, rest) => (w, Thrown e, rest)
    | (w, Pending, rest) => (w, Pending, rest)
    | (w, OutOfFuel, rest) => (w, OutOfFuel, rest)
    end.
Proof.
  revert script. induction r as [w a|w e|w|w k IH]; intros script; cbn [bind_async run];
    try reflexivity.
  destruct script as [|[dt rep] script]; [reflexivity | apply IH].
Qed.

Lemma run_catch {A} (r : async A) (h : exn -> task A) (script : list arrival) :
  run script (catch_async r h)
  = match run script r with
    | (w, Thrown e, rest) => run rest (h e w)
    | other => other
    end.
Proof.
  revert script. induction r as [w a|w e|w|w k IH]; intros script; cbn [catch_async run];
    try reflexivity.
  destruct script as [|[dt rep] script]; [reflexivity | apply IH].
Qed.

Lemma run_finally {A} (r : async A) (f : world -> world) (script : list arrival) :
  run script (finally_async r f)
  = match run script r with
    | (w, Returned a, rest) => (f w, Returned a, rest)
    | (w, Thrown e, rest) => (f w, Thrown e, rest)
    | other => other
    end.
Proof.
  revert script. induction r as [w a|w e|w|w k IH]; intros script; cbn [finally_async run];
    try reflexivity.
  destruct script as [|[dt rep] script]; [reflexivity | apply IH].
Qed.

Lemma exec_bind {A B} (m : task A) (f : A -> task B) (script : list arrival) (w : world) :
  exec (bind m f) script w
  = match exec m script w with
    | (w', Returned a, rest) => exec (f a) rest w'
    | (w', Thrown e, rest) => (w', Thrown e, rest)
    | (w', Pending, rest) => (w', Pending, rest)
    | (w', OutOfFuel, rest) => (w', OutOfFuel, rest)
    end.
Proof. unfold exec, bind. apply run_bind. Qed.

Lemma exec_try_catch {A} (m : task A) (h : exn -> task A) (script : list arrival) (w : world) :
  exec (try_catch m h) script w
  = match exec m script w with
    | (w', Thrown e, rest) => exec (h e) rest w'
    | other => other
    end.
Proof. unfold exec, try_catch. apply run_catch. Qed.

Lemma exec_try_finally {A} (m : task A) (f : world -> world) (script : list arrival) (w : world) :
  exec (try_finally m f) script w
  = match exec m script w with
    | (w', Returned a, rest) => (f w', Returned a, rest)
    | (w', Thrown e, rest) => (f w', Thrown e, rest)
    | other => other
    end.
Proof. unfold exec, try_finally. apply run_finally. Qed.

Lemma exec_read {A} (f : world -> A) (script : list arrival) (w : world) :
  exec (read f) script w = (w, Returned (f w), script).
Proof. reflexivity. Qed.

Lemma exec_ret {A} (a : A) (script : list arrival) (w : world) :
  exec (ret a) script w = (w, Returned a, script).
Proof. reflexivity. Qed.

Lemma exec_throw {A} (e : exn) (script : list arrival) (w : world) :
  exec (@throw A e) script w = (w, Thrown e, script).
Proof. reflexivity. Qed.

Lemma exec_perform (f : world -> world) (script : list arrival) (w : world) :
  exec (perform f) script w = (f w, Returned tt, script).
Proof. reflexivity. Qed.

Lemma exec_fetch (req : request) (script : list arrival) (w : world) :
  exec (fetch req) script w
  = match script with
    | [] => (set_sent (fun l => l ++ [req]) w, Pending, [])
    | (dt, NetworkError) :: rest =>
        (after_fetch req dt w, Thrown (TypeError "Failed to fetch"), rest)
    | (dt, Arrived r) :: rest => (after_fetch req dt w, Returned r, rest)
    end.
Proof. destruct script as [|[dt [|r]] rest]; reflexivity. Qed.

Lemma exec_response_json (r : response) (script : list arrival) (w : world) :
  exec (response_json r) script w
  = (w, match payload r with
        | Json j => Returned j
        | NotJson _ => Thrown (SyntaxError "Unexpected token")
        end, script).
Proof. unfold response_json. destruct (payload r); reflexivity. Qed.

Ltac unfold_tasks :=
  unfold bind, read, try_catch, try_finally, fetch, throw, ret, perform, sync, checked,
    response_json.

Ltac crunch := cbn [bind_async catch_async finally_async run negb].

(** ** The credential store *)

Lemma clearStoredTokens_no_credential (w : world) : no_credential (Api.clearStoredTokens w).
Proof.
  split; [reflexivity|].
  intros b. unfold Api.clearStoredTokens. cbn [window set_spotifyApi set_window].
  destruct (window w) as [b0|]; cbn [fmap option_fmap option_map]; [|discriminate].
  intros [= <-]. cbn [localStorage set_localStorage]. apply lookup_delete_eq.
Qed.

(** ** What a call leaves alone *)


























(** ** The PKCE generator *)

Lemma possible_length : String.length possible = 66.
Proof. reflexivity. Qed.

Lemma char_at_possible (i : nat) :
  i < 66 ->
  exists c, char_at possible i = String c "" /\ unreserved c = true.
Proof.
  intros Hi.
  pose proof (below_forallb
                (fun i => match String.get i possible with
                          | Some c => unreserved c
                          | None => false
                          end) 66 eq_refl i Hi) as H.
  cbv beta in H. unfold char_at.
  destruct (String.get i possible) as [c|]; [|discriminate].
  exists c. split; [reflexivity | exact H].
Qed.

Lemma reduce_possible (values : list byte) (acc : string) :
  let out :=
    fold_left
      (fun acc x => acc +:+ char_at possible (Byte.to_nat x mod String.length possible))
      values acc in
  String.length out = String.length acc + length values
  /\ (Forall (fun c => unreserved c = true) (list_ascii_of_string acc) ->
      Forall (fun c => unreserved c = true) (list_ascii_of_string out)).
Proof.
  revert acc. induction values as [|x values IH]; intros acc; cbn [fold_left length].
  - split; [lia | auto].
  - destruct (char_at_possible (Byte.to_nat x mod String.length possible)) as (c & Hc & Hu).
    { rewrite possible_length. apply Nat.mod_upper_bound. discriminate. }
    rewrite Hc. destruct (IH (acc +:+ String c "")) as [Hlen Hall].
    split.
    + rewrite Hlen, length_append. cbn [String.length]. lia.
    + intros Hacc. apply Hall. rewrite list_ascii_append. cbn [list_ascii_of_string].
      apply Forall_app. split; [exact Hacc | repeat constructor; exact Hu].
Qed.

Lemma generateRandomString_spec (n : nat) (w : world) :
  String.length (fst (generateRandomString n w)) = n
  /\ Forall (fun c => unreserved c = true)
       (list_ascii_of_string (fst (generateRandomString n w)))
  /\ snd (generateRandomString n w) = set_drawn (fun d => d + n) w.
Proof.
  unfold generateRandomString, getRandomValues. cbn [fst snd].
  destruct (reduce_possible (map (fun i => entropy w (drawn w + i)) (seq 0 n)) "")
    as [Hlen Hall].
  repeat split.
  - rewrite Hlen. cbn [String.length]. now rewrite length_map, length_seq.
  - apply Hall. constructor.
Qed.

Lemma replace_all_append (c : ascii) (by_ s t : string) :
  replace_all c by_ (s +:+ t) = replace_all c by_ s +:+ replace_all c by_ t.
Proof.
  induction s as [|x s IH]; [reflexivity|].
  rewrite append_cons. cbn [replace_all]. now rewrite IH, append_assoc.
Qed.

Lemma urlsafe_append (s t : string) : urlsafe (s +:+ t) = urlsafe s +:+ urlsafe t.
Proof. unfold urlsafe. now rewrite !replace_all_append. Qed.

(** Below 64 the two alphabets differ exactly as the replacements say, and
    no character of the standard alphabet is the padding character. *)
Lemma urlsafe_sextet (n : N) :
  (n < 64)%N ->
  urlsafe (String (sextet base64_alphabet n) "") = String (sextet base64url_alphabet n) "".
Proof.
  intros Hn.
  pose proof (below_forallb
                (fun i => String.eqb
                            (urlsafe (String (sextet base64_alphabet (N.of_nat i)) ""))
                            (String (sextet base64url_alphabet (N.of_nat i)) ""))
                64 eq_refl (N.to_nat n)) as H.
  cbv beta in H. rewrite N2Nat.id in H. apply String.eqb_eq, H. lia.
Qed.

Lemma urlsafe_cons (n : N) (s : string) :
  (n < 64)%N ->
  urlsafe (String (sextet base64_alphabet n) s)
  = String (sextet base64url_alphabet n) (urlsafe s).
Proof.
  intros Hn.
  change (String (sextet base64_alphabet n) s)
    with (String (sextet base64_alphabet n) "" +:+ s).
  now rewrite urlsafe_append, urlsafe_sextet.
Qed.

Lemma N_of_ascii_of_byte (b : byte) : N_of_ascii (ascii_of_byte b) = Byte.to_N b.
Proof. destruct b; reflexivity. Qed.

Lemma to_N_bounded (b : byte) : (Byte.to_N b < 256)%N.
Proof. rewrite <- N_of_ascii_of_byte. apply N_ascii_bounded. Qed.

Lemma sextet_bounds (x y z : N) :
  (x < 256 -> y < 256 -> z < 256 ->
   x / 4 < 64 /\ (x mod 4) * 16 < 64 /\ (x mod 4) * 16 + y / 16 < 64
   /\ (y mod 16) * 4 < 64 /\ (y mod 16) * 4 + z / 64 < 64 /\ z mod 64 < 64)%N.
Proof.
  intros Hx Hy Hz.
  assert (x / 4 < 64)%N by (apply N.Div0.div_lt_upper_bound; lia).
  assert (y / 16 < 16)%N by (apply N.Div0.div_lt_upper_bound; lia).
  assert (z / 64 < 4)%N by (apply N.Div0.div_lt_upper_bound; lia).
  assert (x mod 4 < 4)%N by (apply N.mod_upper_bound; lia).
  assert (y mod 16 < 16)%N by (apply N.mod_upper_bound; lia).
  assert (z mod 64 < 64)%N by (apply N.mod_upper_bound; lia).
  lia.
Qed.

Lemma binary_cons (a : byte) (l : list byte) :
  join (map fromCharCode (a :: l)) = String (ascii_of_byte a) (join (map fromCharCode l)).
Proof. reflexivity. Qed.

(** The code's encoder, [btoa] followed by the three replacements, computes
    the unpadded base64url encoding. *)
Lemma base64urlEncode_nopad (buffer : list byte) :
  base64urlEncode buffer = base64url_nopad buffer.
Proof.
  unfold base64urlEncode. fold (urlsafe (btoa (join (map fromCharCode buffer)))).
  induction buffer as [|a|a b|a b c l IH] using list_ind3.
  - reflexivity.
  - rewrite binary_cons. cbn [map join fold_right btoa base64url_nopad].
    rewrite N_of_ascii_of_byte.
    destruct (sextet_bounds (Byte.to_N a) 0 0) as (? & ? & _);
      [apply to_N_bounded | lia | lia |].
    rewrite !urlsafe_cons by assumption. reflexivity.
  - rewrite !binary_cons. cbn [map join fold_right btoa base64url_nopad].
    rewrite !N_of_ascii_of_byte.
    destruct (sextet_bounds (Byte.to_N a) (Byte.to_N b) 0) as (? & _ & ? & ? & _);
      [apply to_N_bounded | apply to_N_bounded | lia |].
    rewrite !urlsafe_cons by assumption. reflexivity.
  - rewrite !binary_cons. cbn [btoa base64url_nopad].
    rewrite !N_of_ascii_of_byte.
    destruct (sextet_bounds (Byte.to_N a) (Byte.to_N b) (Byte.to_N c))
      as (? & _ & ? & _ & ? & ?); [apply to_N_bounded ..|].
    rewrite !urlsafe_cons by assumption. now rewrite IH.
Qed.

(** The encoder on the test vectors of RFC 4648, section 10, and on the
    example of RFC 7636, appendix B. *)
Example btoa_foob : btoa "foob" = "Zm9vYg==".
Proof. reflexivity. Qed.

Example base64urlEncode_f : base64urlEncode (list_byte_of_string "f") = "Zg".
Proof. reflexivity. Qed.

Example base64urlEncode_fo : base64urlEncode (list_byte_of_string "fo") = "Zm8".
Proof. reflexivity. Qed.

Example base64urlEncode_foobar : base64urlEncode (list_byte_of_string "foobar") = "Zm9vYmFy".
Proof. reflexivity. Qed.

Example base64urlEncode_url_characters : base64urlEncode [xfb; xff] = "-_8".
Proof. reflexivity. Qed.

Example base64urlEncode_rfc7636 :
  base64urlEncode rfc7636_digest = "E9Melhoa2OwvFrEMTJguCHaoeK1t8URWbuGJSstw-cM".
Proof. reflexivity. Qed.

Lemma sextet_no_padding (n : N) :
  (n < 64)%N -> sextet base64url_alphabet n <> "="%char.
Proof.
  intros Hn.
  pose proof (below_forallb
                (fun i => negb (Ascii.eqb (sextet base64url_alphabet (N.of_nat i)) "="))
                64 eq_refl (N.to_nat n)) as H.
  cbv beta in H. rewrite N2Nat.id in H.
  intros E. rewrite E in H. discriminate H. lia.
Qed.

Lemma base64url_nopad_no_padding (bs : list byte) :
  ~ In "="%char (list_ascii_of_string (base64url_nopad bs)).
Proof.
  induction bs as [|a|a b|a b c l IH] using list_ind3; cbn [base64url_nopad].
  - intros [].
  - destruct (sextet_bounds (Byte.to_N a) 0 0) as (? & ? & _);
      [apply to_N_bounded | lia | lia |].
    cbn [list_ascii_of_string In].
    intros [E|[E|[]]]; revert E; apply sextet_no_padding; assumption.
  - destruct (sextet_bounds (Byte.to_N a) (Byte.to_N b) 0) as (? & _ & ? & ? & _);
      [apply to_N_bounded | apply to_N_bounded | lia |].
    cbn [list_ascii_of_string In].
    intros [E|[E|[E|[]]]]; revert E; apply sextet_no_padding; assumption.
  - destruct (sextet_bounds (Byte.to_N a) (Byte.to_N b) (Byte.to_N c))
      as (? & _ & ? & _ & ? & ?); [apply to_N_bounded ..|].
    cbn [list_ascii_of_string In].
    intros [E|[E|[E|[E|E]]]]; [revert E; apply sextet_no_padding; assumption ..|].
    exact (IH E).
Qed.

(** C9. Every call to the PKCE pair generator returns a verifier of exactly
    128 characters, each from the unreserved URL-safe alphabet (A-Z, a-z,
    0-9, '-', '.', '_', '~'), and a challenge equal to the base64url encoding
    of the SHA-256 digest of the verifier, in which no ['='] padding
    character is left. The call settles at once, having drawn 128 bytes from
    the random source. *)
Theorem generatePKCEPair_verifier_and_challenge
    (SHA256 : list byte -> list byte) (w : world) :
  exists codeVerifier codeChallenge,
    generatePKCEPair SHA256 w
    = Resolved (set_drawn (fun d => d + 128) w) (codeVerifier, codeChallenge)
    /\ String.length codeVerifier = 128
    /\ Forall (fun c => unreserved c = true) (list_ascii_of_string codeVerifier)
    /\ codeChallenge = base64url_nopad (SHA256 (list_byte_of_string codeVerifier))
    /\ ~ In "="%char (list_ascii_of_string codeChallenge).
Proof.
  destruct (generateRandomString_spec 128 w) as (Hlen & Hall & Hw).
  unfold generatePKCEPair, sha256, bind, sync, ret.
  destruct (generateRandomString 128 w) as [v w'] eqn:E.
  cbn [fst snd] in Hlen, Hall, Hw. subst w'.
  exists v, (base64urlEncode (SHA256 (list_byte_of_string v))).
  cbn [bind_async]. rewrite base64urlEncode_nopad.
  repeat split; auto using base64url_nopad_no_padding.
Qed.

(** ** Refresh *)



Lemma no_credential_set_react (f : AuthState -> AuthState) (w : world) :
  no_credential w -> no_credential (set_react f w).
Proof. intros H. exact H. Qed.



Lemma exec_refresh_returned
    (w w1 : world) (script rest : list arrival) (b : bool) :
  exec Api.refreshAccessToken script w = (w1, Returned b, rest) ->
  exists dt r tokens,
    script = (dt, Arrived r) :: rest
    /\ truthy (refreshToken (spotifyApi w)) = true
    /\ ok r = true
    /\ payload r = Json tokens
    /\ b = true
    /\ spotifyApi w1
       = {| accessToken := access_token tokens;
            refreshToken := or_else (refresh_token tokens) (refreshToken (spotifyApi w));
            tokenExpiry :=
              Some (new_Date (fmap (fun s => (now w + Z.of_nat dt + s * 1000)%Z)
                                (expires_in tokens))) |}
    /\ (forall b1, window w1 = Some b1 ->
        truthy (access_token tokens) = true ->
        exists expiry,
          localStorage b1 !! "spotify_tokens"
          = Some (StoredTokens (access_token tokens)
                    (or_else (refresh_token tokens) (refreshToken (spotifyApi w)))
                    expiry)).
Proof.
  unfold exec, Api.refreshAccessToken. unfold_tasks. crunch.
  destruct (truthy (refreshToken (spotifyApi w))) eqn:Hrt; crunch; [|discriminate].
  destruct script as [|[dt rep] script]; [discriminate|].
  destruct rep as [|r]; crunch; [discriminate|].
  destruct (ok r) eqn:Hok; crunch.
  2: { destruct (payload r); crunch; discriminate. }
  destruct (payload r) as [tokens|t] eqn:Hbody; crunch; [|discriminate].
  unfold Api.setTokens, Api.saveTokensToStorage. unfold_tasks. crunch.
  cbn [window spotifyApi set_spotifyApi elapse set_now set_sent accessToken refreshToken
       tokenExpiry with_refresh_token access_token refresh_token expires_in now].
  destruct (window w) as [b0|] eqn:Hwin; crunch.
  - destruct (truthy (access_token tokens)) eqn:Hat; crunch.
    + destruct (new_Date _) as [|ms] eqn:Hd; cbn [toISOString]; crunch; [discriminate|].
      intros [= <- <- <-]. exists dt, r, tokens.
      repeat split; auto.
      * cbn [spotifyApi set_window]. now rewrite Hd.
      * intros b1. cbn [window set_window set_spotifyApi elapse set_now set_sent].
        rewrite Hwin. cbn [fmap option_fmap option_map].
        intros [= <-] _. eexists. cbn [localStorage set_localStorage].
        apply lookup_insert_eq.
    + intros [= <- <- <-]. exists dt, r, tokens.
      repeat split; auto. intros b1 _ Ht. congruence.
  - intros [= <- <- <-]. exists dt, r, tokens.
    repeat split; auto. intros b1 Hb1.
    cbn [window set_spotifyApi elapse set_now set_sent] in Hb1. congruence.
Qed.

(** C8. After a successful refresh whose response omits the [refresh_token]
    field the credential keeps the prior refresh token unchanged; when the
    response carries a refresh token (a non-empty text) that value replaces
    the old one. An empty text is treated as an omitted field. The stored
    copy of the credential holds the same refresh token. *)
Theorem refresh_keeps_or_replaces_refresh_token
    (w w1 : world) (dt : nat) (r : response) (script rest : list arrival) :
  exec Api.refreshAccessToken ((dt, Arrived r) :: script) w = (w1, Returned true, rest) ->
  exists tokens,
    payload r = Json tokens
    /\ (refresh_token tokens = None ->
        refreshToken (spotifyApi w1) = refreshToken (spotifyApi w))
    /\ (forall s, refresh_token tokens = Some s -> s <> "" ->
        refreshToken (spotifyApi w1) = Some s)
    /\ (refresh_token tokens = Some "" ->
        refreshToken (spotifyApi w1) = refreshToken (spotifyApi w))
    /\ (forall b1, window w1 = Some b1 ->
        truthy (access_token tokens) = true ->
        exists expiry,
          localStorage b1 !! "spotify_tokens"
          = Some (StoredTokens (access_token tokens) (refreshToken (spotifyApi w1)) expiry)).
Proof.
  intros H.
  destruct (exec_refresh_returned _ _ _ _ _ H)
    as (dt' & r' & tokens & Hs & Hrt & Hok & Hbody & _ & Hc & Hst).
  injection Hs as <- <- <-.
  exists tokens. split; [exact Hbody|].
  rewrite Hc. cbn [refreshToken].
  split; [intros ->; reflexivity|].
  split.
  { intros s -> Hs. unfold or_else. cbn [truthy].
    destruct (String.eqb_spec s ""); [contradiction | reflexivity]. }
  split; [intros ->; reflexivity|].
  exact Hst.
Qed.

(** The provider's [refreshToken] never throws, and it settles in one of
    two states only: authenticated without error, or unauthenticated with an
    error reason and with neither token nor user. *)
Lemma provider_refreshToken_settles
    (fuel : nat) (w w' : world) (script rest : list arrival) (result : outcome unit) :
  exec (AuthContext.refreshToken fuel) script w = (w', result, rest) ->
  match result with
  | Returned _ =>
      (s_isAuthenticated (react w') = true /\ s_error (react w') = None)
      \/ (s_isAuthenticated (react w') = false
          /\ (exists reason, s_error (react w') = Some reason)
          /\ s_accessToken (react w') = None
          /\ s_user (react w') = None)
  | Thrown _ => False
  | Pending | OutOfFuel => True
  end.
Proof.
  unfold AuthContext.refreshToken.
  rewrite exec_try_catch, exec_bind.
  assert (Hhandler : forall e w0 rest0,
             exec (AuthContext.setError (Some (message e));;
                   AuthContext.setIsAuthenticated false;;
                   AuthContext.setAccessToken None;;
                   AuthContext.setUser None) rest0 w0 = (w', result, rest) ->
             match result with
             | Returned _ =>
                 (s_isAuthenticated (react w') = true /\ s_error (react w') = None)
                 \/ (s_isAuthenticated (react w') = false
                     /\ (exists reason, s_error (react w') = Some reason)
                     /\ s_accessToken (react w') = None
                     /\ s_user (react w') = None)
             | Thrown _ => False
             | Pending | OutOfFuel => True
             end).
  { intros e w0 rest0.
    unfold exec, AuthContext.setError, AuthContext.setIsAuthenticated,
      AuthContext.setAccessToken, AuthContext.setUser.
    unfold_tasks. crunch. intros [= <- <- <-]. right. cbn. eauto. }
  destruct (exec Api.refreshAccessToken script w) as [[w1 [ok1|e1| |]] rest1];
    try (intros [= <- <- <-]; exact I); [|apply Hhandler].
  rewrite exec_bind. unfold Api.getAccessToken. rewrite exec_read, exec_bind.
  unfold AuthContext.setAccessToken at 1. rewrite exec_perform, exec_bind.
  destruct (exec (Api.getCurrentUser fuel) rest1 _) as [[w2 [profile|e2| |]] rest2];
    try (intros [= <- <- <-]; exact I); [|apply Hhandler].
  unfold exec, AuthContext.setError, AuthContext.setIsAuthenticated, AuthContext.setUser.
  unfold_tasks. crunch. intros [= <- <- <-]. left. split; reflexivity.
Qed.


Lemma refresh_keeps_or_replaces_refresh_token_witness :
  let first :=
    exec Api.refreshAccessToken
      [(10, Arrived (success (token_document (Some "access-2") None)))] sample_world in
  let second :=
    exec Api.refreshAccessToken
      [(10, Arrived (success (token_document (Some "access-2") (Some "refresh-2"))))]
      sample_world in
  first = (fst (fst first), Returned true, [])
  /\ second = (fst (fst second), Returned true, [])
  /\ refreshToken (spotifyApi (fst (fst first))) = Some "refresh-1"
  /\ refreshToken (spotifyApi (fst (fst second))) = Some "refresh-2".
Proof.
  cbv zeta.
  assert (H1 : exec Api.refreshAccessToken
                 [(10, Arrived (success (token_document (Some "access-2") None)))]
                 sample_world
               = (fst (fst (exec Api.refreshAccessToken
                    [(10, Arrived (success (token_document (Some "access-2") None)))]
                    sample_world)), Returned true, [])) by reflexivity.
  assert (H2 : exec Api.refreshAccessToken
                 [(10, Arrived (success (token_document (Some "access-2") (Some "refresh-2"))))]
                 sample_world
               = (fst (fst (exec Api.refreshAccessToken
                    [(10, Arrived (success (token_document (Some "access-2") (Some "refresh-2"))))]
                    sample_world)), Returned true, [])) by reflexivity.
  split; [exact H1|]. split; [exact H2|].
  destruct (refresh_keeps_or_replaces_refresh_token _ _ _ _ _ _ H1)
    as (t1 & Hb1 & Hk1 & _).
  destruct (refresh_keeps_or_replaces_refresh_token _ _ _ _ _ _ H2)
    as (t2 & Hb2 & _ & Hr2 & _).
  injection Hb1 as <-. injection Hb2 as <-.
  split; [exact (Hk1 eq_refl) | apply (Hr2 "refresh-2" eq_refl); discriminate].
Defined.

Lemma exec_refresh_succeeds
    (w : world) (dt : nat) (r : response) (tokens : json) (s : Z)
    (script : list arrival) :
  truthy (refreshToken (spotifyApi w)) = true ->
  ok r = true ->
  payload r = Json tokens ->
  expires_in tokens = Some s ->
  (Z.abs (now w + Z.of_nat dt + s * 1000) <= MAX_TIME_VALUE)%Z ->
  exists w2,
    exec Api.refreshAccessToken ((dt, Arrived r) :: script) w = (w2, Returned true, script)
    /\ spotifyApi w2
       = {| accessToken := access_token tokens;
            refreshToken := or_else (refresh_token tokens) (refreshToken (spotifyApi w));
            tokenExpiry := Some (DateAt (now w + Z.of_nat dt + s * 1000)) |}
    /\ now w2 = (now w + Z.of_nat dt)%Z
    /\ sent w2 = sent w ++ [Api.refresh_request w].
Proof.
  intros Hrt Hok Hbody Hexp Hrange.
  unfold exec, Api.refreshAccessToken. unfold_tasks. crunch. rewrite Hrt. crunch.
  rewrite Hok. crunch. rewrite Hbody. crunch.
  unfold Api.setTokens, Api.saveTokensToStorage. unfold_tasks. crunch.
  cbn [window spotifyApi set_spotifyApi elapse set_now set_sent accessToken refreshToken
       tokenExpiry with_refresh_token access_token refresh_token expires_in now].
  rewrite Hexp. cbn [fmap option_fmap option_map new_Date].
  apply Z.leb_le in Hrange. rewrite Hrange.
  destruct (window w) as [b0|]; crunch.
  - destruct (truthy (access_token tokens)); crunch; cbn [toISOString]; crunch;
      eexists; (split; [reflexivity|]); repeat split; reflexivity.
  - eexists. split; [reflexivity|]. repeat split; reflexivity.
Qed.

(** ** The authenticated-state query and the start of the provider *)

(** C10. [isAuthenticated()] answers true exactly when an access token is
    present (a non-empty text), an expiry instant is present and the current
    time is strictly before it; a credential whose expiry has passed is
    reported unauthenticated whatever refresh token is held; and the query
    settles at once in the unchanged world: it refreshes nothing and sends no
    request. *)
Theorem isAuthenticated_exactly_unexpired (w : world) :
  exists b,
    Api.isAuthenticated w = Resolved w b
    /\ (b = true <->
        truthy (accessToken (spotifyApi w)) = true
        /\ exists ms, tokenExpiry (spotifyApi w) = Some (DateAt ms) /\ (now w < ms)%Z)
    /\ (forall ms, tokenExpiry (spotifyApi w) = Some (DateAt ms) ->
        (ms <= now w)%Z -> b = false).
Proof.
  unfold Api.isAuthenticated, read. eexists. split; [reflexivity|]. cbv beta zeta.
  destruct (truthy (accessToken (spotifyApi w))); cbn [andb].
  - destruct (tokenExpiry (spotifyApi w)) as [[|ms]|]; cbn [now_lt].
    + split; [split; [discriminate | intros [_ (ms & [=] & _)]] | intros ms [=]].
    + split.
      * split.
        -- intros H. apply Z.ltb_lt in H. split; [reflexivity | eauto].
        -- intros [_ (ms' & [= <-] & H)]. now apply Z.ltb_lt.
      * intros ms' [= <-] H. apply Z.ltb_ge. exact H.
    + split; [split; [discriminate | intros [_ (ms & [=] & _)]] | intros ms [=]].
  - split; [split; [discriminate | intros [[=] _]] | reflexivity].
Qed.

Lemma now_lt_new_Date_expired (t ms : Z) :
  (ms <= t)%Z -> now_lt t (new_Date (Some ms)) = false.
Proof.
  intros H. unfold new_Date. destruct (Z.abs ms <=? MAX_TIME_VALUE)%Z; cbn [now_lt];
    [now apply Z.ltb_ge | reflexivity].
Qed.

(** C6, as the code behaves: when the provider starts over a stored credential
    whose expiry has passed, no request at all is sent, whatever refresh
    token is stored; the refresh token is loaded and left unused, and the
    provider settles unauthenticated. *)
Theorem start_with_expired_credential_sends_nothing
    (fuel : nat) (w : world) (b : browser) (a r : option string) (ms : Z)
    (script : list arrival) :
  window w = Some b ->
  localStorage b !! "spotify_tokens" = Some (StoredTokens a r (Some ms)) ->
  (ms <= now w)%Z ->
  exists w',
    exec (AuthContext.start fuel) script w = (w', Returned tt, script)
    /\ sent w' = sent w
    /\ refreshToken (spotifyApi w') = r
    /\ s_isAuthenticated (react w') = false
    /\ s_isLoading (react w') = false.
Proof.
  intros Hwin Hst Hexp.
  unfold exec, AuthContext.start, AuthContext.checkAuthStatus, Api.constructor,
    Api.loadTokensFromStorage, Api.isAuthenticated, AuthContext.setIsLoading,
    AuthContext.setIsAuthenticated.
  unfold_tasks. crunch.
  cbn [window set_spotifyApi set_react spotifyApi]. rewrite Hwin, Hst.
  cbn [window set_spotifyApi set_react spotifyApi accessToken tokenExpiry now
       AuthContext.setIsLoading_now].
  rewrite (now_lt_new_Date_expired _ _ Hexp), andb_false_r. crunch.
  eexists. split; [reflexivity|]. repeat split; reflexivity.
Qed.

Lemma start_with_expired_credential_sends_nothing_witness :
  window restart_world = Some sample_browser
  /\ localStorage sample_browser !! "spotify_tokens"
     = Some (StoredTokens (Some "access-1") (Some "refresh-1") (Some 3600000%Z))
  /\ (3600000 <= now restart_world)%Z
  /\ exists w',
       exec (AuthContext.start 2)
         [(10, Arrived (success (token_document (Some "access-2") None)))] restart_world
       = (w', Returned tt,
          [(10, Arrived (success (token_document (Some "access-2") None)))])
       /\ sent w' = sent restart_world
       /\ refreshToken (spotifyApi w') = Some "refresh-1"
       /\ s_isAuthenticated (react w') = false
       /\ s_isLoading (react w') = false.
Proof.
  split; [reflexivity|]. split; [reflexivity|]. split; [cbn; lia|].
  apply (start_with_expired_credential_sends_nothing 2 restart_world sample_browser
           (Some "access-1") (Some "refresh-1") 3600000); [reflexivity | reflexivity | cbn; lia].
Defined.

(** ** The callback *)

(** Every call of the client's callback handler stops at its first
    statement: [retrieveState] is unbound in [spotifyApi.js]. *)
Lemma handleAuthCallback_unbound (code state : string) (script : list arrival) (w : world) :
  exec (Api.handleAuthCallback code state) script w
  = (w, Thrown (ReferenceError "retrieveState is not defined"), script).
Proof. reflexivity. Qed.

(** C5, as the code behaves: the callback handler of the client never
    reaches a pending authorization.  Invoked twice with the same code and
    state, in whatever world and whatever the token endpoint would answer,
    the first invocation does not succeed: it throws the ReferenceError of
    the unbound [retrieveState] before anything is read; so does the second.
    No reply is consumed and the world is left as it was: nothing is sent,
    the stored state and the stored verifier are not deleted, the credential
    is unchanged. *)
Theorem callback_handler_never_reads_the_pending_authorization
    (code state : string) (script : list arrival) (w : world) :
  let '(w1, first, rest1) := exec (Api.handleAuthCallback code state) script w in
  let '(w2, second, rest2) := exec (Api.handleAuthCallback code state) rest1 w1 in
  first = Thrown (ReferenceError "retrieveState is not defined")
  /\ second = Thrown (ReferenceError "retrieveState is not defined")
  /\ rest2 = script
  /\ w2 = w
  /\ fst (retrieveState w2) = fst (retrieveState w)
  /\ fst (retrievePKCEVerifier w2) = fst (retrievePKCEVerifier w).
Proof.
  rewrite handleAuthCallback_unbound, handleAuthCallback_unbound.
  repeat split; reflexivity.
Qed.

(** C4, as the code behaves on the server route: once the configuration is
    valid and the query carries a code and a state, the handler sends the
    code to the token endpoint, for every value of the state; no stored
    state is consulted. *)
Theorem server_callback_exchanges_code_for_any_state
    (w : world) (q : CallbackRoute.query_t) :
  window w = None ->
  truthy (NEXT_PUBLIC_SPOTIFY_CLIENT_ID (env w)) = true ->
  truthy (SPOTIFY_CLIENT_SECRET (env w)) = true ->
  truthy (CallbackRoute.q_error q) = false ->
  truthy (CallbackRoute.q_code q) = true ->
  truthy (CallbackRoute.q_state q) = true ->
  exists k,
    CallbackRoute.GET q w
    = Await (set_sent (fun l => l ++ [CallbackRoute.exchange_request (CallbackRoute.q_code q) w]) w) k
    /\ is_exchange_request (CallbackRoute.exchange_request (CallbackRoute.q_code q) w) = true.
Proof.
  intros Hwin Hid Hsecret Herr Hcode Hstate.
  unfold CallbackRoute.GET, validateSpotifyConfig, missing_vars, getSpotifyConfig.
  unfold_tasks. rewrite Hwin. cbn [clientId clientSecret List.filter snd map fst].
  rewrite Hid, Hsecret. cbn [negb List.filter map length Nat.ltb Nat.leb]. crunch.
  rewrite Herr, Hcode, Hstate. cbn [negb orb]. crunch.
  eexists. split; reflexivity.
Qed.

(** C3, as the code behaves: the authorization address returned (and
    navigated to) by [initiateAuth] carries exactly the parameters
    [response_type], [client_id], [scope], [redirect_uri] and [state]; it has
    no [code_challenge] and no [code_challenge_method], and no verifier is
    stored. The call settles at once; it fails only on an invalid
    configuration. *)
Theorem initiateAuth_address_has_no_challenge (w : world) :
  match Api.initiateAuth w with
  | Resolved w' authUrl =>
      map fst (query authUrl)
      = ["response_type"; "client_id"; "scope"; "redirect_uri"; "state"]
      /\ ~ In "code_challenge" (map fst (query authUrl))
      /\ ~ In "code_challenge_method" (map fst (query authUrl))
      /\ (forall b b', window w = Some b -> window w' = Some b' ->
          href b' = Some authUrl
          /\ sessionStorage b' !! "spotify_code_verifier"
             = sessionStorage b !! "spotify_code_verifier")
  | Rejected w' e => exists e', validateSpotifyConfig w' = inl e'
  | Cutoff _ | Await _ _ => False
  end.
Proof.
  unfold Api.initiateAuth, generateState, storeState. unfold_tasks.
  destruct (generateRandomString 16 w) as [state w0] eqn:E. crunch.
  pose proof (generateRandomString_spec 16 w) as (_ & _ & Hw). rewrite E in Hw.
  cbn [snd] in Hw. subst w0.
  match goal with
  | |- context [validateSpotifyConfig ?x] => destruct (validateSpotifyConfig x) eqn:V
  end; crunch.
  - eauto.
  - split; [reflexivity|]. cbn [query map fst].
    split; [intros H; repeat (destruct H as [H|H]; [discriminate H|]); exact H|].
    split; [intros H; repeat (destruct H as [H|H]; [discriminate H|]); exact H|].
    intros br br'. cbn [window set_window set_drawn]. intros ->.
    cbn [fmap option_fmap option_map]. intros [= <-].
    cbn [href set_href sessionStorage set_sessionStorage]. split; [reflexivity|].
    now rewrite lookup_insert_ne by discriminate.
Qed.

(** The handler that the callback page posts to makes no check either. *)
Lemma posted_callback_exchanges_code_for_any_state
    (w : world) (q : CallbackRoute.query_t) :
  window w = None ->
  truthy (NEXT_PUBLIC_SPOTIFY_CLIENT_ID (env w)) = true ->
  truthy (SPOTIFY_CLIENT_SECRET (env w)) = true ->
  truthy (CallbackRoute.q_error q) = false ->
  truthy (CallbackRoute.q_code q) = true ->
  truthy (CallbackRoute.q_state q) = true ->
  exists k,
    CallbackRoute.POST q w
    = Await (set_sent (fun l => l ++ [CallbackRoute.exchange_request (CallbackRoute.q_code q) w]) w) k.
Proof.
  intros Hwin Hid Hsecret Herr Hcode Hstate.
  unfold CallbackRoute.POST, validateSpotifyConfig, missing_vars, getSpotifyConfig.
  unfold_tasks. rewrite Hwin. cbn [clientId clientSecret List.filter snd map fst].
  rewrite Hid, Hsecret. cbn [negb List.filter map length Nat.ltb Nat.leb]. crunch.
  rewrite Herr, Hcode, Hstate. cbn [negb orb]. crunch.
  eexists. reflexivity.
Qed.

(** On the forged callback the server completes the exchange and sets the
    token cookies. *)
Example forged_callback_is_served :
  let '(w', result, _) :=
    exec (CallbackRoute.GET forged_callback) token_reply server_world in
  map (fun r => (url r, form r)) (sent w')
  = [("https://accounts.spotify.com/api/token",
      [("grant_type", "authorization_code"); ("code", "code-1");
       ("redirect_uri", "http://localhost:3000/api/auth/callback/spotify");
       ("client_id", "client-id"); ("client_secret", "client-secret")])]
  /\ match result with
     | Returned r =>
         CallbackRoute.location r = {| base := "/"; query := [] |}
         /\ map fst (CallbackRoute.cookies r)
            = ["spotify_access_token"; "spotify_refresh_token"]
     | _ => False
     end.
Proof. vm_compute. repeat split; reflexivity. Qed.

(** In the browser in which a login has stored a state and a verifier, the
    callback that carries this state fails all the same, and the pending
    authorization stays. *)
Example pending_callback_throws_ReferenceError :
  let '(w1, result, rest) :=
    exec (Api.handleAuthCallback "code-1" "state-1") token_reply callback_world in
  result = Thrown (ReferenceError "retrieveState is not defined")
  /\ rest = token_reply
  /\ sent w1 = []
  /\ fst (retrieveState w1) = Some "state-1"
  /\ fst (retrievePKCEVerifier w1) = Some "verifier-1".
Proof. vm_compute. repeat split; reflexivity. Qed.

Lemma server_callback_exchanges_code_for_any_state_witness :
  window server_world = None
  /\ truthy (NEXT_PUBLIC_SPOTIFY_CLIENT_ID (env server_world)) = true
  /\ truthy (SPOTIFY_CLIENT_SECRET (env server_world)) = true
  /\ truthy (CallbackRoute.q_error forged_callback) = false
  /\ truthy (CallbackRoute.q_code forged_callback) = true
  /\ truthy (CallbackRoute.q_state forged_callback) = true
  /\ exists k,
       CallbackRoute.GET forged_callback server_world
       = Await (set_sent
                  (fun l => l ++ [CallbackRoute.exchange_request
                                    (CallbackRoute.q_code forged_callback) server_world])
                  server_world) k
       /\ is_exchange_request
            (CallbackRoute.exchange_request (CallbackRoute.q_code forged_callback)
               server_world) = true.
Proof.
  repeat (split; [reflexivity|]).
  exact (server_callback_exchanges_code_for_any_state server_world forged_callback
           eq_refl eq_refl eq_refl eq_refl eq_refl eq_refl).
Defined.

(** ** The request gateway *)

Lemma refreshAccessToken_suspends (w : world) :
  truthy (refreshToken (spotifyApi w)) = true ->
  exists k,
    Api.refreshAccessToken w
    = Await (set_sent (fun l => l ++ [Api.refresh_request w]) w) k.
Proof.
  intros H. unfold Api.refreshAccessToken. unfold_tasks. crunch. rewrite H. crunch.
  eexists. reflexivity.
Qed.

(** A call made with an expired credential and a refresh token first sends
    a refresh request. *)
Lemma gateway_refreshes_expired_credential
    (fuel : nat) (endpoint : string) (options : options_t) (w : world) :
  needs_refresh w = true ->
  exists k,
    Api.makeApiRequest (S fuel) endpoint options w
    = Await (set_sent (fun l => l ++ [Api.refresh_request w]) w) k.
Proof.
  intros H. pose proof H as Hrt. unfold needs_refresh in Hrt.
  apply andb_true_iff in Hrt as [_ Hrt].
  cbn [Api.makeApiRequest]. unfold Api.refreshAccessToken. unfold_tasks. crunch.
  fold (needs_refresh w). rewrite H. crunch. rewrite Hrt. crunch.
  eexists. reflexivity.
Qed.

(** C2, as the code behaves: a 401 received by [makeApiRequest] leads, when a
    refresh token is held, to one refresh followed by a new call of
    [makeApiRequest] itself, which treats a further 401 in the same way, so
    the number of refreshes and retries is not bounded by one; the error of a
    failed refresh is surfaced; "Authentication required" is surfaced, and
    the credential cleared, only when the 401 arrives while no refresh token
    is held. *)
Theorem gateway_401_refreshes_and_calls_itself
    (fuel : nat) (endpoint : string) (options : options_t) (w w0 : world)
    (dt : nat) (r : response) (script0 script : list arrival) :
  dispatched script0 w w0 ((dt, Arrived r) :: script) ->
  status r = 401%Z ->
  exec (Api.makeApiRequest (S fuel) endpoint options) script0 w
  = let w1 := after_fetch (Api.api_request endpoint options w0) dt w0 in
    if truthy (refreshToken (spotifyApi w0))
    then match exec Api.refreshAccessToken script w1 with
         | (w2, Returned _, rest) => exec (Api.makeApiRequest fuel endpoint options) rest w2
         | (w2, Thrown e, rest) => (w2, Thrown e, rest)
         | (w2, Pending, rest) => (w2, Pending, rest)
         | (w2, OutOfFuel, rest) => (w2, OutOfFuel, rest)
         end
    else (Api.clearStoredTokens w1, Thrown (Error "Authentication required"), script).
Proof.
  intros Hd Hstatus.
  cbn [Api.makeApiRequest]. rewrite exec_bind, exec_read. fold (needs_refresh w).
  rewrite exec_bind.
  assert (Hrest : exec (if needs_refresh w then Api.refreshAccessToken;; ret tt else ret tt)
                    script0 w
                  = (w0, Returned tt, (dt, Arrived r) :: script)
                  /\ truthy (accessToken (spotifyApi w0)) = true).
  { inversion Hd as [? ? [Hfresh Htoken]|? ? ? ? Hneeds Hrefresh Htoken]; subst.
    - rewrite Hfresh, exec_ret. auto.
    - rewrite Hneeds, exec_bind, Hrefresh, exec_ret. auto. }
  destruct Hrest as [-> Htoken].
  rewrite exec_bind, exec_read, Htoken. cbn [negb].
  rewrite exec_bind, exec_read, exec_bind, exec_fetch, Hstatus. cbn [Z.eqb Pos.eqb].
  rewrite exec_bind, exec_read. cbv zeta.
  change (spotifyApi (after_fetch (Api.api_request endpoint options w0) dt w0))
    with (spotifyApi w0).
  destruct (truthy (refreshToken (spotifyApi w0))).
  - rewrite exec_bind. reflexivity.
  - rewrite exec_bind, exec_perform, exec_throw. reflexivity.
Qed.

(** Counterexample to C2 as stated: the retried call receives a second 401;
    the gateway refreshes a second time and calls a third time, and the
    caller receives the answer to the third call, not an error. *)
Lemma gateway_retries_after_second_401 :
  let '(w', result, rest) :=
    exec (Api.makeApiRequest 3 "/me" no_options) two_rejections sample_world in
  result = Returned (document "profile")
  /\ result <> Thrown (Error "Authentication required")
  /\ gateway_calls w' = 3
  /\ refresh_calls w' = 2
  /\ rest = [].
Proof. vm_compute. repeat split; try reflexivity. discriminate. Qed.

Lemma gateway_401_refreshes_and_calls_itself_witness :
  dispatched two_rejections sample_world sample_world
    ((10, Arrived unauthorized) :: tl two_rejections)
  /\ status unauthorized = 401%Z
  /\ exec (Api.makeApiRequest 3 "/me" no_options) two_rejections sample_world
     = let w1 := after_fetch (Api.api_request "/me" no_options sample_world) 10 sample_world in
       if truthy (refreshToken (spotifyApi sample_world))
       then match exec Api.refreshAccessToken (tl two_rejections) w1 with
            | (w2, Returned _, rest) => exec (Api.makeApiRequest 2 "/me" no_options) rest w2
            | (w2, Thrown e, rest) => (w2, Thrown e, rest)
            | (w2, Pending, rest) => (w2, Pending, rest)
            | (w2, OutOfFuel, rest) => (w2, OutOfFuel, rest)
            end
       else (Api.clearStoredTokens w1, Thrown (Error "Authentication required"),
             tl two_rejections).
Proof.
  assert (H : dispatched two_rejections sample_world sample_world
                ((10, Arrived unauthorized) :: tl two_rejections)).
  { apply (dispatched_at_once two_rejections sample_world). split; reflexivity. }
  split; [exact H|]. split; [reflexivity|].
  exact (gateway_401_refreshes_and_calls_itself 2 "/me" no_options sample_world sample_world
           10 unauthorized two_rejections (tl two_rejections) H eq_refl).
Defined.

(** ** Concurrent triggers of the refresh *)

Lemma refresh_request_is_refresh (w : world) :
  is_refresh_request (Api.refresh_request w) = true.
Proof. reflexivity. Qed.

(** C1, as the code behaves: a gateway call receives a 401 and, in the same
    tick, the provider's refresh interval fires. Each of the two triggers
    sends its own refresh request to the token endpoint, so two are sent, and
    each caller is left waiting for the reply to its own request: no
    in-flight refresh is shared. *)
Theorem concurrent_refresh_triggers_each_send_a_request
    (w : world) (fuel fuel' : nat) (endpoint : string) (options : options_t)
    (dt : nat) (r : response) :
  dispatches w ->
  truthy (refreshToken (spotifyApi w)) = true ->
  status r = 401%Z ->
  let l0 := spawn (void (Api.makeApiRequest (S fuel) endpoint options))
              {| shared := w; waiting := [] |} in
  let l1 := deliver 0 (dt, Arrived r) l0 in
  let l2 := spawn (AuthContext.refreshToken fuel') l1 in
  sent (shared l2)
  = sent w ++ [Api.api_request endpoint options w; Api.refresh_request w;
               Api.refresh_request w]
  /\ is_refresh_request (Api.refresh_request w) = true
  /\ length (waiting l0) = 1
  /\ length (waiting l1) = 1
  /\ length (waiting l2) = 2.
Proof.
  intros [Hfresh Htoken] Hrt Hstatus. unfold needs_refresh in Hfresh.
  cbn [Api.makeApiRequest].
  unfold spawn, deliver, void, AuthContext.refreshToken, Api.refreshAccessToken.
  unfold_tasks.
  repeat progress
    (crunch;
     cbn [absorb shared waiting app lookup list_lookup fst snd delete list_delete
          spotifyApi elapse set_now set_sent sent length];
     rewrite ?Hfresh, ?Htoken, ?Hrt, ?Hstatus; cbn [Z.eqb Pos.eqb]).
  repeat split.
  rewrite <- !app_assoc. reflexivity.
Qed.

(** However many times the interval fires before a reply arrives, each
    firing sends one more refresh request. *)
Lemma timer_triggers_send_n_requests (fuel n : nat) (l : loop) :
  truthy (refreshToken (spotifyApi (shared l))) = true ->
  let l' := Nat.iter n (spawn (AuthContext.refreshToken fuel)) l in
  sent (shared l') = sent (shared l) ++ repeat (Api.refresh_request (shared l)) n
  /\ length (waiting l') = length (waiting l) + n.
Proof.
  intros Hrt. cbv zeta.
  assert (H : sent (shared (Nat.iter n (spawn (AuthContext.refreshToken fuel)) l))
              = sent (shared l) ++ repeat (Api.refresh_request (shared l)) n
              /\ length (waiting (Nat.iter n (spawn (AuthContext.refreshToken fuel)) l))
                 = length (waiting l) + n
              /\ spotifyApi (shared (Nat.iter n (spawn (AuthContext.refreshToken fuel)) l))
                 = spotifyApi (shared l)
              /\ env (shared (Nat.iter n (spawn (AuthContext.refreshToken fuel)) l))
                 = env (shared l)
              /\ window (shared (Nat.iter n (spawn (AuthContext.refreshToken fuel)) l))
                 = window (shared l)).
  { induction n as [|n (IHs & IHw & IHc & IHe & IHb)].
    - cbn [Nat.iter nat_rect repeat]. rewrite app_nil_r. repeat split; lia.
    - rewrite !Nat.iter_succ.
      remember (Nat.iter n (spawn (AuthContext.refreshToken fuel)) l) as l1 eqn:El1.
      clear El1.
      assert (Hrt1 : truthy (refreshToken (spotifyApi (shared l1))) = true)
        by (rewrite IHc; exact Hrt).
      unfold spawn, AuthContext.refreshToken, Api.refreshAccessToken. unfold_tasks. crunch.
      rewrite Hrt1. crunch. cbn [absorb shared waiting sent set_sent spotifyApi env window].
      rewrite IHs, length_app, IHw. cbn [length].
      assert (Hreq : Api.refresh_request (shared l1) = Api.refresh_request (shared l)).
      { unfold Api.refresh_request, getSpotifyConfig. now rewrite IHc, IHe, IHb. }
      rewrite Hreq. repeat split; auto; [|lia].
      rewrite <- app_assoc. f_equal.
      change [Api.refresh_request (shared l)] with (repeat (Api.refresh_request (shared l)) 1).
      rewrite <- repeat_app. f_equal. lia. }
  split; apply H.
Qed.

(** Counterexample to C1 as stated: with the timer firing in the tick in
    which the 401 arrives, two refresh requests are sent to the token
    endpoint, not one, and two calls are left waiting. *)
Lemma timer_and_401_send_two_refresh_requests :
  AuthContext.refreshIntervalArmed (react sample_world) = true
  /\ refresh_calls (shared timer_and_401_same_tick) = 2
  /\ refresh_calls (shared timer_and_401_same_tick) <> 1
  /\ length (waiting timer_and_401_same_tick) = 2.
Proof. vm_compute. repeat split; try reflexivity. discriminate. Qed.

Lemma concurrent_refresh_triggers_each_send_a_request_witness :
  dispatches sample_world
  /\ truthy (refreshToken (spotifyApi sample_world)) = true
  /\ status unauthorized = 401%Z
  /\ sent (shared timer_and_401_same_tick)
     = [Api.api_request "/me" no_options sample_world;
        Api.refresh_request sample_world; Api.refresh_request sample_world].
Proof.
  split; [split; reflexivity|]. split; [reflexivity|]. split; [reflexivity|].
  apply (concurrent_refresh_triggers_each_send_a_request sample_world 1 2 "/me" no_options
           10 unauthorized); [split; reflexivity | reflexivity | reflexivity].
Defined.

(** ** The unfolding bound is only a bound *)



(** ** Any number of retries *)

Lemma me_request_is_no_token_request (w : world) :
  is_token_request (Api.api_request "/me" no_options w) = false
  /\ is_refresh_request (Api.api_request "/me" no_options w) = false.
Proof. split; reflexivity. Qed.

Lemma calls_after (w w' : world) (l : list request) :
  sent w' = sent w ++ l ->
  gateway_calls w' = gateway_calls w + length (List.filter (fun r => negb (is_token_request r)) l)
  /\ refresh_calls w' = refresh_calls w + length (List.filter is_refresh_request l).
Proof.
  intros H. unfold gateway_calls, refresh_calls. rewrite H, !List.filter_app, !length_app.
  split; reflexivity.
Qed.

(** However many times in a row the catalog service answers 401, the
    gateway refreshes and calls again each time: [n] rejections cost [n]
    refreshes and [n + 1] calls, and the caller receives the answer to the
    last call. *)
Lemma gateway_retries_unbounded (n : nat) (w : world) :
  dispatches w ->
  truthy (refreshToken (spotifyApi w)) = true ->
  (0 <= now w)%Z ->
  (now w + 20 * Z.of_nat n + 3600000 <= MAX_TIME_VALUE)%Z ->
  exists w',
    exec (Api.makeApiRequest (S n) "/me" no_options)
      (rejected_rounds n ++ [(10, Arrived (success (document "profile")))]) w
    = (w', Returned (document "profile"), [])
    /\ gateway_calls w' = gateway_calls w + S n
    /\ refresh_calls w' = refresh_calls w + n.
Proof.
  revert w. induction n as [|n IH]; intros w Hd Hrt Hnow Hmax.
  - destruct Hd as [Hfresh Htoken].
    cbn [rejected_rounds app Api.makeApiRequest].
    rewrite exec_bind, exec_read. fold (needs_refresh w). rewrite Hfresh.
    rewrite exec_bind, exec_ret, exec_bind, exec_read, Htoken. cbn [negb].
    rewrite exec_bind, exec_read, exec_bind, exec_fetch. cbn [status success Z.eqb Pos.eqb].
    cbn [negb ok status success Z.leb Z.compare Pos.compare Pos.compare_cont andb].
    rewrite exec_response_json. cbn [payload success].
    eexists. split; [reflexivity|].
    destruct (calls_after w (after_fetch (Api.api_request "/me" no_options w) 10 w)
                [Api.api_request "/me" no_options w] eq_refl) as [-> ->].
    cbn [List.filter]. destruct (me_request_is_no_token_request w) as [-> ->].
    cbn [negb length]. lia.
  - pose proof Hd as [Hfresh Htoken].
    cbn [rejected_rounds rejected_round app Api.makeApiRequest].
    rewrite exec_bind, exec_read. fold (needs_refresh w). rewrite Hfresh.
    rewrite exec_bind, exec_ret, exec_bind, exec_read, Htoken. cbn [negb].
    rewrite exec_bind, exec_read, exec_bind, exec_fetch.
    cbn [status unauthorized Z.eqb Pos.eqb].
    rewrite exec_bind, exec_read.
    set (w1 := after_fetch (Api.api_request "/me" no_options w) 10 w).
    change (spotifyApi w1) with (spotifyApi w). rewrite Hrt, exec_bind.
    destruct (exec_refresh_succeeds w1 10
                (success (token_document (Some "access-2") None))
                (token_document (Some "access-2") None) 3600
                (rejected_rounds n ++ [(10, Arrived (success (document "profile")))]))
      as (w2 & Hexec & Hclient & Hnow2 & Hsent2); try reflexivity.
    { exact Hrt. }
    { subst w1. cbn [now after_fetch elapse set_now set_sent]. lia. }
    assert (Hnow1 : now w1 = (now w + 10)%Z) by reflexivity.
    destruct (IH w2) as (w' & Hrun & Hg & Hr).
    + split.
      * unfold needs_refresh. rewrite Hclient, Hnow2, Hnow1.
        cbn [tokenExpiry now_ge Z.of_nat Pos.of_succ_nat Pos.succ].
        apply andb_false_iff. left. apply Z.leb_gt. lia.
      * rewrite Hclient. reflexivity.
    + rewrite Hclient. cbn [refreshToken token_document refresh_token or_else truthy].
      exact Hrt.
    + rewrite Hnow2, Hnow1. lia.
    + rewrite Hnow2, Hnow1. lia.
    + exists w'. unfold arrival in *. rewrite Hexec. split; [exact Hrun|].
      destruct (calls_after w w2
                  [Api.api_request "/me" no_options w; Api.refresh_request w1])
        as [Hg2 Hr2].
      { rewrite Hsent2. subst w1. cbn [sent after_fetch elapse set_now set_sent].
        now rewrite <- app_assoc. }
      rewrite Hg, Hr, Hg2, Hr2. cbn [List.filter].
      destruct (me_request_is_no_token_request w) as [-> ->].
      rewrite refresh_request_is_refresh.
      assert (is_token_request (Api.refresh_request w1) = true) as -> by reflexivity.
      cbn [negb length]. lia.
Qed.

(** * Further properties of the code *)

(** ** The single-use entries of the session storage *)

(** X1. A stored state is returned by the next [retrieveState] in a browser
    (on the server nothing is stored and [null] is returned), the retrieval
    after that returns [null], and neither storing nor retrieving the state
    touches the stored verifier. *)
Theorem stored_state_is_retrieved_once (state : string) (w : world) :
  let first := retrieveState (storeState state w) in
  let second := retrieveState (snd first) in
  fst first = match window w with Some _ => Some state | None => None end
  /\ fst second = None
  /\ fst (retrievePKCEVerifier (snd first)) = fst (retrievePKCEVerifier w)
  /\ sent (snd second) = sent w.
Proof.
  unfold retrieveState, retrievePKCEVerifier, storeState.
  destruct (window w) as [b|] eqn:Hwin;
    repeat progress
      (cbn [window set_window fmap option_fmap option_map fst snd sessionStorage
            set_sessionStorage sent];
       rewrite ?Hwin).
  - rewrite lookup_insert_eq, lookup_delete_eq.
    rewrite lookup_delete_ne, lookup_insert_ne by discriminate. auto.
  - auto.
Qed.

(** X2. A stored verifier is returned by the next [retrievePKCEVerifier] in a
    browser and by none after it; a verifier stored again replaces the one
    stored before; the stored state is not touched. *)
Theorem stored_verifier_is_retrieved_once (old verifier : string) (w : world) :
  let stored := storePKCEVerifier verifier (storePKCEVerifier old w) in
  let first := retrievePKCEVerifier stored in
  let second := retrievePKCEVerifier (snd first) in
  fst first = match window w with Some _ => Some verifier | None => None end
  /\ fst second = None
  /\ fst (retrieveState (snd first)) = fst (retrieveState w).
Proof.
  unfold retrieveState, retrievePKCEVerifier, storePKCEVerifier.
  destruct (window w) as [b|] eqn:Hwin;
    repeat progress
      (cbn [window set_window fmap option_fmap option_map fst snd sessionStorage
            set_sessionStorage sent];
       rewrite ?Hwin).
  - rewrite lookup_insert_eq, lookup_delete_eq.
    rewrite lookup_delete_ne, !lookup_insert_ne by discriminate. auto.
  - auto.
Qed.

(** ** The random strings *)

(** X3. [generateState] returns 16 characters of the unreserved alphabet and
    draws exactly 16 bytes, so that two states generated in a row are made
    from disjoint parts of the random source: the second is the state that a
    source advanced by 16 bytes gives. *)
Theorem generateState_sixteen_unreserved (w : world) :
  let first := generateState w in
  String.length (fst first) = 16
  /\ Forall (fun c => unreserved c = true) (list_ascii_of_string (fst first))
  /\ drawn (snd first) = drawn w + 16
  /\ generateState (snd first) = generateState (set_drawn (fun d => d + 16) w).
Proof.
  cbv zeta. unfold generateState.
  destruct (generateRandomString_spec 16 w) as (Hlen & Hall & Hw).
  rewrite Hw. repeat split; assumption.
Qed.

Lemma all_bytes_complete : length all_bytes = 256.
Proof. reflexivity. Qed.

(** X4. The characters of a random string are not equally likely: of the 256
    values of a byte, four give each of the first 58 characters of the
    alphabet and three give each of the last 8. *)
Theorem generateRandomString_modulo_bias (i : nat) :
  i < 66 ->
  length (bytes_giving i) = if i <? 58 then 4 else 3.
Proof.
  intros Hi.
  pose proof (below_forallb
                (fun i => length (bytes_giving i) =? (if i <? 58 then 4 else 3))
                66) as H.
  apply Nat.eqb_eq. apply H; [vm_compute; reflexivity | exact Hi].
Qed.

Lemma generateRandomString_modulo_bias_witness :
  0 < 66 /\ length (bytes_giving 0) = 4 /\ 65 < 66 /\ length (bytes_giving 65) = 3.
Proof.
  split; [lia|]. split; [apply (generateRandomString_modulo_bias 0); lia|].
  split; [lia|]. apply (generateRandomString_modulo_bias 65); lia.
Defined.

(** ** The encoder *)

Lemma sextet_is_base64url (n : N) :
  (n < 64)%N -> base64url_char (sextet base64url_alphabet n) = true.
Proof.
  intros Hn.
  pose proof (below_forallb
                (fun i => base64url_char (sextet base64url_alphabet (N.of_nat i)))
                64 eq_refl (N.to_nat n)) as H.
  cbv beta in H. rewrite N2Nat.id in H. apply H. lia.
Qed.

Lemma base64url_length_step (n : nat) : (4 * (3 + n) + 2) / 3 = 4 + (4 * n + 2) / 3.
Proof.
  replace (4 * (3 + n) + 2) with (4 * n + 2 + 4 * 3) by lia.
  rewrite Nat.div_add by discriminate. lia.
Qed.

(** X5. [base64urlEncode] of [n] bytes has [(4n + 2) / 3] characters (43 for
    the 32 bytes of a SHA-256 digest), all of them letters, digits, ['-'] or
    ['_']. *)
Theorem base64urlEncode_length_and_alphabet (buffer : list byte) :
  String.length (base64urlEncode buffer) = (4 * length buffer + 2) / 3
  /\ Forall (fun c => base64url_char c = true)
       (list_ascii_of_string (base64urlEncode buffer))
  /\ (length buffer = 32 -> String.length (base64urlEncode buffer) = 43).
Proof.
  rewrite base64urlEncode_nopad.
  assert (H : String.length (base64url_nopad buffer) = (4 * length buffer + 2) / 3
              /\ Forall (fun c => base64url_char c = true)
                   (list_ascii_of_string (base64url_nopad buffer))).
  { induction buffer as [|a|a b|a b c l [IHlen IHall]] using list_ind3.
    - split; [reflexivity | constructor].
    - destruct (sextet_bounds (Byte.to_N a) 0 0) as (? & ? & _);
        [apply to_N_bounded | lia | lia |].
      split; [reflexivity|].
      cbn [base64url_nopad list_ascii_of_string].
      repeat constructor; apply sextet_is_base64url; assumption.
    - destruct (sextet_bounds (Byte.to_N a) (Byte.to_N b) 0) as (? & _ & ? & ? & _);
        [apply to_N_bounded | apply to_N_bounded | lia |].
      split; [reflexivity|].
      cbn [base64url_nopad list_ascii_of_string].
      repeat constructor; apply sextet_is_base64url; assumption.
    - destruct (sextet_bounds (Byte.to_N a) (Byte.to_N b) (Byte.to_N c))
        as (? & _ & ? & _ & ? & ?); [apply to_N_bounded ..|].
      split.
      + cbn [base64url_nopad String.length length]. rewrite IHlen.
        change (S (S (S (length l)))) with (3 + length l).
        rewrite base64url_length_step. lia.
      + cbn [base64url_nopad list_ascii_of_string].
        repeat (constructor; [apply sextet_is_base64url; assumption|]). exact IHall. }
  destruct H as [Hlen Hall]. repeat split; [exact Hlen | exact Hall|].
  intros H32. rewrite Hlen, H32. reflexivity.
Qed.

(** ** The credential store *)

Lemma new_Date_valid (t : option Z) (ms : Z) :
  new_Date t = DateAt ms -> t = Some ms /\ new_Date (Some ms) = DateAt ms.
Proof.
  destruct t as [x|]; [|discriminate]. unfold new_Date.
  destruct (Z.abs x <=? MAX_TIME_VALUE)%Z eqn:E; [|discriminate].
  intros [= <-]. rewrite E. auto.
Qed.

(** X6. Round trip through the durable store: once [setTokens] has returned
    in a browser with an access token, a client constructed over that storage
    holds the same access token, the same refresh token and the same expiry
    instant. *)
Theorem stored_credential_is_reloaded
    (tokens : json) (w w1 w2 : world) (b1 : browser) (script rest : list arrival) :
  exec (Api.setTokens tokens) script w = (w1, Returned tt, rest) ->
  window w1 = Some b1 ->
  truthy (access_token tokens) = true ->
  window w2 = Some b1 ->
  spotifyApi (Api.constructor w2) = spotifyApi w1
  /\ accessToken (spotifyApi w1) = access_token tokens
  /\ refreshToken (spotifyApi w1) = refresh_token tokens
  /\ exists ms, tokenExpiry (spotifyApi w1) = Some (DateAt ms).
Proof.
  unfold exec, Api.setTokens, Api.saveTokensToStorage. unfold_tasks. crunch.
  cbn [window spotifyApi set_spotifyApi accessToken refreshToken tokenExpiry].
  destruct (window w) as [b0|] eqn:Hwin; crunch.
  2: { intros [= <- _]. cbn [window set_spotifyApi]. congruence. }
  intros H Hw1 Hat Hw2. rewrite Hat in H. revert H.
  destruct (new_Date _) as [|ms] eqn:Hd; cbn [toISOString]; crunch; [discriminate|].
  intros [= <- _]. revert Hw1.
  cbn [window set_window set_spotifyApi]. rewrite Hwin.
  cbn [fmap option_fmap option_map]. intros [= <-].
  destruct (new_Date_valid _ _ Hd) as [_ Hvalid].
  unfold Api.constructor, Api.loadTokensFromStorage.
  cbn [window set_spotifyApi]. rewrite Hw2.
  cbn [localStorage set_localStorage]. rewrite lookup_insert_eq.
  cbn [spotifyApi set_spotifyApi set_window accessToken refreshToken tokenExpiry].
  rewrite Hvalid. eauto 10.
Qed.

Lemma stored_credential_is_reloaded_witness :
  let saved := exec (Api.setTokens (token_document (Some "access-2") (Some "refresh-2")))
                 [] sample_world in
  saved = (fst (fst saved), Returned tt, [])
  /\ (exists b1, window (fst (fst saved)) = Some b1)
  /\ truthy (access_token (token_document (Some "access-2") (Some "refresh-2"))) = true
  /\ spotifyApi (Api.constructor (fst (fst saved)))
     = {| accessToken := Some "access-2"; refreshToken := Some "refresh-2";
          tokenExpiry := Some (DateAt 3601000) |}.
Proof.
  cbv zeta.
  set (saved := exec (Api.setTokens (token_document (Some "access-2") (Some "refresh-2")))
                  [] sample_world).
  assert (H : saved = (fst (fst saved), Returned tt, [])) by reflexivity.
  assert (Hb : exists b1, window (fst (fst saved)) = Some b1) by (eexists; reflexivity).
  split; [exact H|]. split; [exact Hb|]. split; [reflexivity|].
  destruct Hb as [b1 Hb].
  destruct (stored_credential_is_reloaded _ _ _ (fst (fst saved)) b1 _ _ H Hb eq_refl Hb)
    as (-> & _).
  reflexivity.
Defined.

(** X7. The constructor removes only what cannot be read.  An entry on
    which [JSON.parse] throws, or that is [null], is removed, and the client
    holds no credential.  An entry that parses is kept as it is, also when it
    has none of the expected members (the text 123, say): the client holds
    the members it found, with an invalid expiry where there is none, and is
    not authenticated when the access token or the expiry is missing.
    Without an entry, or with an empty one, the storage is left as it is and
    no credential is held. *)
Theorem constructor_discards_only_unreadable_entries (w : world) (b : browser) :
  window w = Some b ->
  match localStorage b !! "spotify_tokens" with
  | Some Unparsable =>
      no_credential (Api.constructor w)
      /\ Api.isAuthenticated (Api.constructor w) = Resolved (Api.constructor w) false
  | Some (StoredTokens a r expiry) =>
      window (Api.constructor w) = Some b
      /\ spotifyApi (Api.constructor w)
         = {| accessToken := a; refreshToken := r;
              tokenExpiry := Some (new_Date expiry) |}
      /\ (a = None \/ expiry = None ->
          Api.isAuthenticated (Api.constructor w) = Resolved (Api.constructor w) false)
  | Some EmptyText | None =>
      window (Api.constructor w) = Some b
      /\ spotifyApi (Api.constructor w) = Api.null_client
  end.
Proof.
  intros Hwin.
  unfold Api.constructor, Api.loadTokensFromStorage.
  cbn [window set_spotifyApi]. rewrite Hwin.
  destruct (localStorage b !! "spotify_tokens") as [[a r expiry| |]|] eqn:Hst.
  - split; [exact Hwin|]. split; [reflexivity|].
    intros Hmissing. unfold Api.isAuthenticated, read.
    cbn [spotifyApi set_spotifyApi accessToken tokenExpiry].
    destruct Hmissing as [-> | ->]; [reflexivity|].
    cbn [new_Date now_lt]. now rewrite andb_false_r.
  - split; [apply clearStoredTokens_no_credential | reflexivity].
  - split; [exact Hwin | reflexivity].
  - split; [exact Hwin | reflexivity].
Qed.

Lemma constructor_discards_only_unreadable_entries_witness :
  window unreadable_world = Some unreadable_browser
  /\ localStorage unreadable_browser !! "spotify_tokens" = Some Unparsable
  /\ no_credential (Api.constructor unreadable_world)
  /\ window number_world = Some number_browser
  /\ localStorage number_browser !! "spotify_tokens" = Some (StoredTokens None None None)
  /\ window (Api.constructor number_world) = Some number_browser
  /\ tokenExpiry (spotifyApi (Api.constructor number_world)) = Some InvalidDate.
Proof.
  split; [reflexivity|]. split; [vm_compute; reflexivity|].
  split.
  { pose proof (constructor_discards_only_unreadable_entries unreadable_world
                  unreadable_browser eq_refl) as H.
    replace (localStorage unreadable_browser !! "spotify_tokens")
      with (Some Unparsable) in H by (vm_compute; reflexivity).
    exact (proj1 H). }
  split; [reflexivity|]. split; [vm_compute; reflexivity|].
  pose proof (constructor_discards_only_unreadable_entries number_world number_browser
                eq_refl) as H.
  replace (localStorage number_browser !! "spotify_tokens")
    with (Some (StoredTokens None None None)) in H by (vm_compute; reflexivity).
  destruct H as (H1 & H2 & _). split; [exact H1|]. rewrite H2. reflexivity.
Defined.

(** ** Logout *)

(** X8. After the provider's [logout] no credential is held or stored, the
    provider state is unauthenticated without error, token or user, the
    refresh interval is not armed, nothing was sent, and a gateway call made
    then fails with "No access token available" without sending anything. *)
Theorem logout_leaves_nothing_to_send
    (fuel : nat) (endpoint : string) (options : options_t)
    (script : list arrival) (w : world) :
  exists w1,
    exec AuthContext.logout script w = (w1, Returned tt, script)
    /\ no_credential w1
    /\ sent w1 = sent w
    /\ react w1
       = {| s_isAuthenticated := false; s_isLoading := s_isLoading (react w);
            s_error := None; s_user := None; s_accessToken := None |}
    /\ AuthContext.refreshIntervalArmed (react w1) = false
    /\ Api.isAuthenticated w1 = Resolved w1 false
    /\ exec (Api.makeApiRequest (S fuel) endpoint options) script w1
       = (w1, Thrown (Error "No access token available. Please authenticate first."),
          script).
Proof.
  eexists. split.
  { unfold exec, AuthContext.logout, Api.logout, AuthContext.setError,
      AuthContext.setIsAuthenticated, AuthContext.setAccessToken, AuthContext.setUser.
    unfold_tasks. crunch. reflexivity. }
  split. { repeat apply no_credential_set_react. apply clearStoredTokens_no_credential. }
  repeat split.
Qed.

(** ** The configuration *)

(** X9. In the browser the configuration is valid exactly when the client
    identifier is set, on the server exactly when the identifier and the
    secret are both set; the error names exactly the variables that are
    missing; and the configuration read in a browser never carries the
    client secret. *)
Theorem validateSpotifyConfig_names_what_is_missing (w : world) :
  let id := NEXT_PUBLIC_SPOTIFY_CLIENT_ID (env w) in
  let secret := SPOTIFY_CLIENT_SECRET (env w) in
  validateSpotifyConfig w
  = match window w with
    | Some _ =>
        if truthy id then inr true
        else inl (Error ("Missing required Spotify environment variables: "
                         +:+ "NEXT_PUBLIC_SPOTIFY_CLIENT_ID"))
    | None =>
        match truthy id, truthy secret with
        | true, true => inr true
        | false, true =>
            inl (Error ("Missing required Spotify environment variables: "
                        +:+ "NEXT_PUBLIC_SPOTIFY_CLIENT_ID"))
        | true, false =>
            inl (Error ("Missing required Spotify environment variables: "
                        +:+ "SPOTIFY_CLIENT_SECRET"))
        | false, false =>
            inl (Error ("Missing required Spotify environment variables: "
                        +:+ "NEXT_PUBLIC_SPOTIFY_CLIENT_ID, SPOTIFY_CLIENT_SECRET"))
        end
    end
  /\ (window w <> None -> clientSecret (getSpotifyConfig w) = None).
Proof.
  cbv zeta. unfold validateSpotifyConfig, missing_vars, getSpotifyConfig.
  cbn [clientId clientSecret].
  destruct (window w) as [b|]; cbn [List.filter snd map fst].
  - split; [|reflexivity].
    destruct (truthy (NEXT_PUBLIC_SPOTIFY_CLIENT_ID (env w))); reflexivity.
  - split; [|intros H; contradiction].
    destruct (truthy (NEXT_PUBLIC_SPOTIFY_CLIENT_ID (env w)));
      destruct (truthy (SPOTIFY_CLIENT_SECRET (env w))); reflexivity.
Qed.

(** ** Login *)

Lemma initiateAuth_resolved (w w' : world) (b : browser) (authUrl : address) :
  window w = Some b ->
  Api.initiateAuth w = Resolved w' authUrl ->
  let state := fst (generateState w) in
  authUrl
  = {| base := "https://accounts.spotify.com/authorize";
       query := [("response_type", "code");
                 ("client_id", show (NEXT_PUBLIC_SPOTIFY_CLIENT_ID (env w)));
                 ("scope", scopes (getSpotifyConfig w));
                 ("redirect_uri", origin b +:+ "/api/auth/callback/spotify");
                 ("state", state)] |}
  /\ truthy (NEXT_PUBLIC_SPOTIFY_CLIENT_ID (env w)) = true
  /\ window w'
     = Some (set_href authUrl
               (set_sessionStorage (insert "spotify_oauth_state" state) b))
  /\ env w' = env w
  /\ sent w' = sent w
  /\ spotifyApi w' = spotifyApi w.
Proof.
  intros Hwin. cbv zeta.
  unfold Api.initiateAuth, generateState, storeState. unfold_tasks.
  destruct (generateRandomString 16 w) as [state w0] eqn:E. crunch.
  pose proof (generateRandomString_spec 16 w) as (_ & _ & Hw). rewrite E in Hw.
  cbn [snd fst] in *. subst w0.
  unfold validateSpotifyConfig, missing_vars, getSpotifyConfig.
  cbn [window set_window set_drawn env clientId]. rewrite Hwin.
  cbn [fmap option_fmap option_map List.filter snd map fst].
  destruct (truthy (NEXT_PUBLIC_SPOTIFY_CLIENT_ID (env w))) eqn:Hid;
    cbn [negb List.filter map length Nat.ltb Nat.leb]; crunch; [|discriminate].
  intros [= <- <-].
  cbn [window set_window set_drawn env sent spotifyApi redirectUri endpoints authorize
       clientId scopes]. rewrite Hwin.
  repeat split.
Qed.

(** X10. When [initiateAuth] succeeds in a browser, the state carried by the
    address it navigates to has 16 characters and is the state that the
    session storage then holds; the [redirect_uri] it carries is the origin
    of the page followed by /api/auth/callback/spotify; and nothing has been
    sent. *)
Theorem initiateAuth_sends_the_state_it_stores
    (w w' : world) (b : browser) (authUrl : address) :
  window w = Some b ->
  Api.initiateAuth w = Resolved w' authUrl ->
  exists state,
    In ("state", state) (query authUrl)
    /\ String.length state = 16
    /\ fst (retrieveState w') = Some state
    /\ In ("redirect_uri", origin b +:+ "/api/auth/callback/spotify") (query authUrl)
    /\ (exists b', window w' = Some b' /\ href b' = Some authUrl)
    /\ sent w' = sent w.
Proof.
  intros Hwin H.
  destruct (initiateAuth_resolved _ _ _ _ Hwin H) as (Hurl & _ & Hwin' & _ & Hsent & _).
  destruct (generateRandomString_spec 16 w) as (Hlen & _ & _).
  exists (fst (generateState w)).
  assert (Hret : fst (retrieveState w') = Some (fst (generateState w))).
  { unfold retrieveState. rewrite Hwin'.
    cbn [fst sessionStorage set_href set_sessionStorage]. apply lookup_insert_eq. }
  split; [rewrite Hurl; cbn; auto 10|].
  split; [exact Hlen|].
  split; [exact Hret|].
  split; [rewrite Hurl; cbn; auto 10|].
  split; [eexists; split; [exact Hwin' | reflexivity]|].
  exact Hsent.
Qed.

Lemma initiateAuth_sends_the_state_it_stores_witness :
  match Api.initiateAuth sample_world with
  | Resolved w' authUrl =>
      window sample_world = Some sample_browser
      /\ exists state,
           In ("state", state) (query authUrl)
           /\ String.length state = 16
           /\ fst (retrieveState w') = Some state
           /\ In ("redirect_uri", "http://localhost:3000/api/auth/callback/spotify")
                (query authUrl)
  | _ => False
  end.
Proof.
  destruct (Api.initiateAuth sample_world) as [w' authUrl| | |] eqn:E;
    try (vm_compute in E; discriminate E).
  split; [reflexivity|].
  destruct (initiateAuth_sends_the_state_it_stores sample_world w' sample_browser authUrl
              eq_refl E) as (state & H1 & H2 & H3 & H4 & _).
  exists state. auto.
Defined.

Lemma initiateAuth_rejected (w : world) (b : browser) :
  window w = Some b ->
  truthy (NEXT_PUBLIC_SPOTIFY_CLIENT_ID (env w)) = false ->
  Api.initiateAuth w
  = Rejected (storeState (fst (generateState w)) (set_drawn (fun d => d + 16) w))
      (Error "Missing required Spotify environment variables: NEXT_PUBLIC_SPOTIFY_CLIENT_ID").
Proof.
  intros Hwin Hid.
  unfold Api.initiateAuth, generateState. unfold_tasks.
  destruct (generateRandomString 16 w) as [state w0] eqn:E. crunch.
  pose proof (generateRandomString_spec 16 w) as (_ & _ & Hw). rewrite E in Hw.
  cbn [snd fst] in *. subst w0.
  unfold validateSpotifyConfig, missing_vars, getSpotifyConfig, storeState.
  cbn [window set_window set_drawn env clientId]. rewrite Hwin.
  cbn [fmap option_fmap option_map List.filter snd map fst]. rewrite Hid.
  cbn [negb List.filter map length Nat.ltb Nat.leb]. crunch. reflexivity.
Qed.

(** X11. Without a client identifier [initiateAuth] fails with the error
    that names the variable, navigates nowhere and sends nothing; the state
    was generated and stored before the configuration is validated, so
    sixteen random bytes are consumed and the state stays in the session
    storage.  The provider's [login] catches the error and shows its
    message. *)
Theorem initiateAuth_without_client_id
    (w : world) (b : browser) (script : list arrival) :
  window w = Some b ->
  truthy (NEXT_PUBLIC_SPOTIFY_CLIENT_ID (env w)) = false ->
  let reason :=
    "Missing required Spotify environment variables: NEXT_PUBLIC_SPOTIFY_CLIENT_ID" in
  exists w' w'',
    Api.initiateAuth w = Rejected w' (Error reason)
    /\ (exists b', window w' = Some b' /\ href b' = href b)
    /\ fst (retrieveState w') = Some (fst (generateState w))
    /\ drawn w' = drawn w + 16
    /\ sent w' = sent w
    /\ exec AuthContext.login script w = (w'', Returned tt, script)
    /\ s_error (react w'') = Some reason.
Proof.
  intros Hwin Hid. cbv zeta.
  eexists. eexists. split; [exact (initiateAuth_rejected w b Hwin Hid)|].
  unfold storeState, retrieveState.
  cbn [window set_window set_drawn sent]. rewrite Hwin.
  cbn [fmap option_fmap option_map fst sessionStorage set_sessionStorage href].
  split; [eexists; split; reflexivity|].
  split; [apply lookup_insert_eq|].
  split; [reflexivity|].
  split; [reflexivity|].
  unfold AuthContext.login. rewrite exec_try_catch, exec_bind.
  unfold AuthContext.setError at 1. rewrite exec_perform, exec_bind.
  unfold exec at 1.
  rewrite (initiateAuth_rejected _ b) by assumption.
  cbn [run]. unfold exec, AuthContext.setError, perform. cbn [run].
  split; reflexivity.
Qed.

Lemma initiateAuth_without_client_id_witness :
  let w := set_window (fun _ => Some sample_browser) (world_drawing Byte.x2a) in
  window w = Some sample_browser
  /\ truthy (NEXT_PUBLIC_SPOTIFY_CLIENT_ID (env w)) = false
  /\ exists w',
       Api.initiateAuth w
       = Rejected w'
           (Error "Missing required Spotify environment variables: NEXT_PUBLIC_SPOTIFY_CLIENT_ID")
       /\ fst (retrieveState w') = Some (fst (generateState w))
       /\ drawn w' = 16.
Proof.
  cbv zeta. split; [reflexivity|]. split; [reflexivity|].
  destruct (initiateAuth_without_client_id
              (set_window (fun _ => Some sample_browser) (world_drawing Byte.x2a))
              sample_browser [] eq_refl eq_refl) as (w' & _ & H1 & _ & H3 & H4 & _).
  exists w'. split; [exact H1|]. split; [exact H3 | exact H4].
Defined.

(** X12. A second login replaces the pending state of the first: after two
    calls of [initiateAuth] the stored state is the one of the second
    address, it is read once, and the state of the first address, when it
    differs, no longer compares equal to what is stored. *)
Theorem second_login_replaces_the_state
    (w w1 w2 : world) (b : browser) (first second : address) :
  window w = Some b ->
  Api.initiateAuth w = Resolved w1 first ->
  Api.initiateAuth w1 = Resolved w2 second ->
  let state1 := fst (generateState w) in
  let state2 := fst (generateState w1) in
  In ("state", state1) (query first)
  /\ In ("state", state2) (query second)
  /\ fst (retrieveState w2) = Some state2
  /\ fst (retrieveState (snd (retrieveState w2))) = None
  /\ strict_eq (fst (retrieveState w2)) state2 = true
  /\ (state1 <> state2 -> strict_eq (fst (retrieveState w2)) state1 = false).
Proof.
  intros Hwin H1 H2. cbv zeta.
  destruct (initiateAuth_resolved _ _ _ _ Hwin H1) as (Hurl1 & _ & Hwin1 & _).
  destruct (initiateAuth_resolved _ _ _ _ Hwin1 H2) as (Hurl2 & _ & Hwin2 & _).
  assert (Hret : fst (retrieveState w2) = Some (fst (generateState w1))).
  { unfold retrieveState. rewrite Hwin2.
    cbn [fst sessionStorage set_href set_sessionStorage]. apply lookup_insert_eq. }
  split; [rewrite Hurl1; cbn; auto 10|].
  split; [rewrite Hurl2; cbn; auto 10|].
  split; [exact Hret|].
  split.
  { unfold retrieveState. rewrite Hwin2.
    cbn [fst snd window set_window fmap option_fmap option_map]. rewrite Hwin2.
    cbn [fst sessionStorage set_href set_sessionStorage]. apply lookup_delete_eq. }
  rewrite Hret. cbn [strict_eq].
  split; [apply String.eqb_refl|].
  intros Hne. apply String.eqb_neq. congruence.
Qed.

Lemma initiateAuth_succeeds (w : world) (b : browser) :
  window w = Some b ->
  truthy (NEXT_PUBLIC_SPOTIFY_CLIENT_ID (env w)) = true ->
  exists w' authUrl, Api.initiateAuth w = Resolved w' authUrl.
Proof.
  intros Hwin Hid.
  unfold Api.initiateAuth, generateState, storeState. unfold_tasks.
  destruct (generateRandomString 16 w) as [state w0] eqn:E. crunch.
  pose proof (generateRandomString_spec 16 w) as (_ & _ & Hw). rewrite E in Hw.
  cbn [snd fst] in *. subst w0.
  unfold validateSpotifyConfig, missing_vars, getSpotifyConfig.
  cbn [window set_window set_drawn env clientId]. rewrite Hwin.
  cbn [fmap option_fmap option_map List.filter snd map fst]. rewrite Hid.
  cbn [negb List.filter map length Nat.ltb Nat.leb]. crunch. eauto.
Qed.

Lemma second_login_replaces_the_state_witness :
  exists w1 w2 first second,
    window changing_world = Some sample_browser
    /\ Api.initiateAuth changing_world = Resolved w1 first
    /\ Api.initiateAuth w1 = Resolved w2 second
    /\ fst (generateState changing_world) <> fst (generateState w1)
    /\ fst (retrieveState w2) = Some (fst (generateState w1))
    /\ strict_eq (fst (retrieveState w2)) (fst (generateState changing_world)) = false.
Proof.
  destruct (initiateAuth_succeeds changing_world sample_browser eq_refl eq_refl)
    as (w1 & first & H1).
  destruct (initiateAuth_resolved changing_world w1 sample_browser first eq_refl H1)
    as (_ & Hid & Hwin1 & Henv & _).
  destruct (initiateAuth_succeeds w1 _ Hwin1) as (w2 & second & H2).
  { rewrite Henv. exact Hid. }
  assert (Hne : fst (generateState changing_world) <> fst (generateState w1)).
  { assert (E : w1 = fst (fst (exec Api.initiateAuth [] changing_world)))
      by (unfold exec; rewrite H1; reflexivity).
    rewrite E. vm_compute. discriminate. }
  destruct (second_login_replaces_the_state changing_world w1 w2 sample_browser first second
              eq_refl H1 H2) as (_ & _ & Hret & _ & _ & Hold).
  exists w1, w2, first, second.
  split; [reflexivity|]. split; [exact H1|]. split; [exact H2|]. split; [exact Hne|].
  split; [exact Hret | exact (Hold Hne)].
Defined.

(** ** The request gateway on other answers *)

Lemma ok_is_not_401 (r : response) : ok r = true -> (status r =? 401)%Z = false.
Proof.
  unfold ok. intros H. apply andb_true_iff in H as [_ H].
  apply Z.leb_le in H. apply Z.eqb_neq. lia.
Qed.

Lemma api_base : replace_first "/search" "" (SPOTIFY_API_BASE_URL +:+ "/search")
                 = "https://api.spotify.com/v1".
Proof. reflexivity. Qed.

(** X13. A call dispatched with a held credential and answered with a status
    in 200-299 and a JSON body returns that body after exactly one request;
    the request goes to the endpoint as given when it begins with "http" and
    to the Web API base address followed by the endpoint otherwise, and it
    carries "Bearer " and the access token as authorization unless the
    caller's options give an [Authorization] header of their own. *)
Theorem gateway_returns_the_answer
    (fuel : nat) (endpoint : string) (options : options_t) (w : world)
    (dt : nat) (r : response) (j : json) (script : list arrival) :
  dispatches w ->
  ok r = true ->
  payload r = Json j ->
  let req := Api.api_request endpoint options w in
  exec (Api.makeApiRequest (S fuel) endpoint options) ((dt, Arrived r) :: script) w
  = (after_fetch req dt w, Returned j, script)
  /\ sent (after_fetch req dt w) = sent w ++ [req]
  /\ spotifyApi (after_fetch req dt w) = spotifyApi w
  /\ url req
     = (if String.prefix "http" endpoint then endpoint
        else "https://api.spotify.com/v1" +:+ endpoint)
  /\ headers req !! "Authorization"
     = Some (match o_headers options !! "Authorization" with
             | Some given => given
             | None => "Bearer " +:+ show (accessToken (spotifyApi w))
             end).
Proof.
  intros [Hfresh Htoken] Hok Hbody. cbv zeta.
  split.
  { cbn [Api.makeApiRequest]. rewrite exec_bind, exec_read. fold (needs_refresh w).
    rewrite Hfresh, exec_bind, exec_ret, exec_bind, exec_read, Htoken. cbn [negb].
    rewrite exec_bind, exec_read, exec_bind, exec_fetch.
    rewrite (ok_is_not_401 r Hok), Hok. cbn [negb].
    rewrite exec_response_json, Hbody. reflexivity. }
  split; [reflexivity|]. split; [reflexivity|].
  split.
  { unfold Api.api_request. cbn [url]. fold SPOTIFY_API_BASE_URL.
    destruct (String.prefix "http" endpoint); [reflexivity|].
    cbn [search endpoints getSpotifyConfig]. now rewrite api_base. }
  unfold Api.api_request. cbn [headers]. rewrite lookup_union.
  destruct (o_headers options !! "Authorization") as [given|]; cbn.
  - rewrite lookup_insert_eq. reflexivity.
  - rewrite lookup_insert_eq. reflexivity.
Qed.

Lemma gateway_returns_the_answer_witness :
  dispatches sample_world
  /\ ok (success (document "profile")) = true
  /\ exec (Api.makeApiRequest 1 "/me" no_options)
       [(10, Arrived (success (document "profile")))] sample_world
     = (after_fetch (Api.api_request "/me" no_options sample_world) 10 sample_world,
        Returned (document "profile"), [])
  /\ url (Api.api_request "/me" no_options sample_world) = "https://api.spotify.com/v1/me"
  /\ headers (Api.api_request "/me" no_options sample_world) !! "Authorization"
     = Some "Bearer access-1".
Proof.
  assert (Hd : dispatches sample_world) by (split; reflexivity).
  split; [exact Hd|]. split; [reflexivity|].
  destruct (gateway_returns_the_answer 0 "/me" no_options sample_world 10
              (success (document "profile")) (document "profile") [] Hd eq_refl eq_refl)
    as (H1 & _ & _ & H2 & H3).
  split; [exact H1|]. split; [exact H2 | exact H3].
Defined.



(** X15. A call made with an expired credential and a refresh token first
    refreshes; when the refresh succeeds, the call that follows carries the
    access token just received, not the expired one, and its answer is
    returned after these two requests. *)
Theorem gateway_dispatches_with_the_refreshed_token
    (fuel : nat) (endpoint : string) (w : world) (dt1 dt2 : nat) (r1 r2 : response)
    (tokens j : json) (a : string) (s : Z) (script : list arrival) :
  needs_refresh w = true ->
  ok r1 = true ->
  payload r1 = Json tokens ->
  access_token tokens = Some a ->
  a <> "" ->
  expires_in tokens = Some s ->
  (Z.abs (now w + Z.of_nat dt1 + s * 1000) <= MAX_TIME_VALUE)%Z ->
  ok r2 = true ->
  payload r2 = Json j ->
  exists w' req,
    exec (Api.makeApiRequest (S fuel) endpoint no_options)
      ((dt1, Arrived r1) :: (dt2, Arrived r2) :: script) w
    = (w', Returned j, script)
    /\ sent w' = sent w ++ [Api.refresh_request w; req]
    /\ headers req !! "Authorization" = Some ("Bearer " +:+ a)
    /\ accessToken (spotifyApi w') = Some a.
Proof.
  intros Hneeds Hok1 Hbody1 Ha Hne Hs Hrange Hok2 Hbody2.
  assert (Hrt : truthy (refreshToken (spotifyApi w)) = true).
  { unfold needs_refresh in Hneeds. now apply andb_true_iff in Hneeds as [_ ?]. }
  destruct (exec_refresh_succeeds w dt1 r1 tokens s ((dt2, Arrived r2) :: script)
              Hrt Hok1 Hbody1 Hs Hrange) as (w2 & Hexec & Hclient & _ & Hsent).
  assert (Hat : truthy (accessToken (spotifyApi w2)) = true).
  { rewrite Hclient. cbn [accessToken]. rewrite Ha. cbn [truthy].
    destruct (String.eqb_spec a ""); [contradiction | reflexivity]. }
  exists (after_fetch (Api.api_request endpoint no_options w2) dt2 w2),
         (Api.api_request endpoint no_options w2).
  split.
  { cbn [Api.makeApiRequest]. rewrite exec_bind, exec_read. fold (needs_refresh w).
    rewrite Hneeds, exec_bind, exec_bind.
    unfold arrival in *. rewrite Hexec, exec_ret, exec_bind, exec_read, Hat. cbn [negb].
    rewrite exec_bind, exec_read, exec_bind, exec_fetch.
    rewrite (ok_is_not_401 r2 Hok2), Hok2. cbn [negb].
    rewrite exec_response_json, Hbody2. reflexivity. }
  split.
  { cbn [sent after_fetch elapse set_now set_sent]. rewrite Hsent, <- app_assoc.
    reflexivity. }
  split.
  { unfold Api.api_request. cbn [headers no_options o_headers].
    rewrite lookup_union, lookup_empty, lookup_insert_eq, Hclient.
    cbn [accessToken]. rewrite Ha. reflexivity. }
  cbn [spotifyApi after_fetch elapse set_now set_sent]. rewrite Hclient.
  cbn [accessToken]. exact Ha.
Qed.

Lemma gateway_dispatches_with_the_refreshed_token_witness :
  needs_refresh expired_world = true
  /\ (Z.abs (now expired_world + Z.of_nat 10 + 3600 * 1000) <= MAX_TIME_VALUE)%Z
  /\ exists w' req,
       exec (Api.makeApiRequest 1 "/me" no_options)
         [(10, Arrived (success (token_document (Some "access-2") None)));
          (10, Arrived (success (document "profile")))] expired_world
       = (w', Returned (document "profile"), [])
       /\ sent w' = sent expired_world ++ [Api.refresh_request expired_world; req]
       /\ headers req !! "Authorization" = Some ("Bearer " +:+ "access-2")
       /\ accessToken (spotifyApi w') = Some "access-2".
Proof.
  assert (Hr : (Z.abs (now expired_world + Z.of_nat 10 + 3600 * 1000) <= MAX_TIME_VALUE)%Z)
    by (vm_compute; discriminate).
  split; [reflexivity|]. split; [exact Hr|].
  apply (gateway_dispatches_with_the_refreshed_token 0 "/me" expired_world 10 10
           (success (token_document (Some "access-2") None))
           (success (document "profile"))
           (token_document (Some "access-2") None) (document "profile") "access-2" 3600 []);
    try reflexivity; [discriminate | exact Hr].
Defined.

(** ** Token documents and the callback *)

(** X16. A token document without [expires_in] never yields an authenticated
    client: [setTokens] keeps the access token in memory with an invalid
    expiry, so [isAuthenticated] answers false; nothing is written to the
    browser's storage, and in a browser with an access token [setTokens]
    throws the RangeError of [toISOString]. *)
Theorem tokens_without_expiry_never_authenticate
    (tokens : json) (w : world) (script : list arrival) :
  expires_in tokens = None ->
  exists w' result,
    exec (Api.setTokens tokens) script w = (w', result, script)
    /\ accessToken (spotifyApi w') = access_token tokens
    /\ exec Api.isAuthenticated script w' = (w', Returned false, script)
    /\ window w' = window w
    /\ (truthy (access_token tokens) = true -> window w <> None ->
        result = Thrown (RangeError "Invalid time value")).
Proof.
  intros Hexp.
  unfold exec, Api.setTokens, Api.saveTokensToStorage, Api.isAuthenticated.
  unfold_tasks. crunch. rewrite Hexp.
  cbn [window spotifyApi set_spotifyApi accessToken refreshToken tokenExpiry
       fmap option_fmap option_map new_Date toISOString now_lt].
  destruct (window w) as [b|] eqn:Hwin; crunch.
  - destruct (truthy (access_token tokens)) eqn:Hat; crunch.
    + do 2 eexists. split; [reflexivity|].
      cbn [window spotifyApi set_spotifyApi accessToken tokenExpiry now_lt].
      rewrite andb_false_r. repeat split; auto.
    + do 2 eexists. split; [reflexivity|].
      cbn [window spotifyApi set_spotifyApi accessToken tokenExpiry now_lt].
      rewrite andb_false_r. repeat split; auto. discriminate.
  - do 2 eexists. split; [reflexivity|].
    cbn [window spotifyApi set_spotifyApi accessToken tokenExpiry now_lt].
    rewrite andb_false_r. repeat split; auto. intros _ Hn. now destruct Hn.
Qed.

Lemma tokens_without_expiry_never_authenticate_witness :
  expires_in token_document_without_expiry = None
  /\ exists w' result,
       exec (Api.setTokens token_document_without_expiry) [] sample_world = (w', result, [])
       /\ accessToken (spotifyApi w') = access_token token_document_without_expiry
       /\ exec Api.isAuthenticated [] w' = (w', Returned false, [])
       /\ window w' = window sample_world
       /\ (truthy (access_token token_document_without_expiry) = true ->
           window sample_world <> None ->
           result = Thrown (RangeError "Invalid time value")).
Proof.
  split; [reflexivity|].
  exact (tokens_without_expiry_never_authenticate token_document_without_expiry
           sample_world [] eq_refl).
Defined.

(** ** The server's callback route *)


Ltac mirrored :=
  cbn [CallbackRoute.location CallbackRoute.cookies CallbackRoute.redirect_to base query
       CallbackRoute.failure CallbackRoute.r_status CallbackRoute.r_success
       CallbackRoute.r_error CallbackRoute.r_cookies];
  repeat lazymatch goal with
    | |- _ /\ _ => split
    | |- _ <-> _ => split; intros ?; try discriminate; try reflexivity
    | |- _ = _ -> _ => intros ?; try discriminate; try reflexivity
    | |- _ = _ \/ _ =>
        first [left; reflexivity | right; left; reflexivity | right; right; reflexivity]
    | |- _ = _ => reflexivity
    end.


Lemma GET_exchanges
    (q : CallbackRoute.query_t) (w : world) (dt : nat) (r : response)
    (script : list arrival) :
  window w = None ->
  truthy (NEXT_PUBLIC_SPOTIFY_CLIENT_ID (env w)) = true ->
  truthy (SPOTIFY_CLIENT_SECRET (env w)) = true ->
  truthy (CallbackRoute.q_error q) = false ->
  truthy (CallbackRoute.q_code q) = true ->
  truthy (CallbackRoute.q_state q) = true ->
  let req := CallbackRoute.exchange_request (CallbackRoute.q_code q) w in
  exec (CallbackRoute.GET q) ((dt, Arrived r) :: script) w
  = (after_fetch req dt w,
     Returned
       (if ok r
        then match payload r with
             | Json tokens =>
                 {| CallbackRoute.location := {| base := "/"; query := [] |};
                    CallbackRoute.cookies := CallbackRoute.token_cookies tokens w |}
             | NotJson _ =>
                 CallbackRoute.redirect_to
                   {| base := "/"; query := [("error", "callback_handler_error")] |}
             end
        else CallbackRoute.redirect_to
               {| base := "/"; query := [("error", "token_exchange_failed")] |}),
     script).
Proof.
  intros Hwin Hid Hsecret Herr Hcode Hstate. cbv zeta.
  unfold exec, CallbackRoute.GET, validateSpotifyConfig, missing_vars, getSpotifyConfig.
  unfold_tasks. rewrite Hwin. cbn [clientId clientSecret List.filter snd map fst].
  rewrite Hid, Hsecret. cbn [negb List.filter map length Nat.ltb Nat.leb]. crunch.
  rewrite Herr, Hcode, Hstate. cbn [negb orb]. crunch.
  destruct (ok r); crunch; [|reflexivity].
  destruct (payload r); unfold_tasks; crunch; reflexivity.
Qed.

(** X17. The server's callback handler keeps no pending authorization, so a
    replayed callback is served like the first: after a first invocation
    that succeeded and set the token cookies, a second invocation with the
    same query sends the same code to the token endpoint again, and sets the
    cookies of whatever tokens that second exchange returns. *)
Theorem server_callback_exchanges_a_replayed_code
    (q : CallbackRoute.query_t) (w : world) (dt1 dt2 : nat) (r1 r2 : response)
    (tokens1 : json) (script : list arrival) :
  window w = None ->
  truthy (NEXT_PUBLIC_SPOTIFY_CLIENT_ID (env w)) = true ->
  truthy (SPOTIFY_CLIENT_SECRET (env w)) = true ->
  truthy (CallbackRoute.q_error q) = false ->
  truthy (CallbackRoute.q_code q) = true ->
  truthy (CallbackRoute.q_state q) = true ->
  ok r1 = true ->
  payload r1 = Json tokens1 ->
  let req := CallbackRoute.exchange_request (CallbackRoute.q_code q) w in
  exists w1 first w2 second,
    exec (CallbackRoute.GET q) ((dt1, Arrived r1) :: (dt2, Arrived r2) :: script) w
    = (w1, Returned first, (dt2, Arrived r2) :: script)
    /\ CallbackRoute.cookies first = CallbackRoute.token_cookies tokens1 w
    /\ exec (CallbackRoute.GET q) ((dt2, Arrived r2) :: script) w1
       = (w2, Returned second, script)
    /\ sent w2 = sent w ++ [req; req]
    /\ is_exchange_request req = true
    /\ (forall tokens2,
          ok r2 = true -> payload r2 = Json tokens2 ->
          CallbackRoute.location second = {| base := "/"; query := [] |}
          /\ CallbackRoute.cookies second = CallbackRoute.token_cookies tokens2 w).
Proof.
  intros Hwin Hid Hsecret Herr Hcode Hstate Hok1 Hbody1. cbv zeta.
  do 4 eexists.
  split; [apply GET_exchanges; assumption|].
  rewrite Hok1, Hbody1.
  split; [reflexivity|].
  split; [apply GET_exchanges; assumption|].
  split.
  { cbn [sent after_fetch elapse set_now set_sent]. rewrite <- app_assoc. reflexivity. }
  split; [reflexivity|].
  intros tokens2 Hok2 Hbody2. rewrite Hok2, Hbody2. split; reflexivity.
Qed.

Lemma server_callback_exchanges_a_replayed_code_witness :
  window server_world = None
  /\ truthy (NEXT_PUBLIC_SPOTIFY_CLIENT_ID (env server_world)) = true
  /\ truthy (SPOTIFY_CLIENT_SECRET (env server_world)) = true
  /\ truthy (CallbackRoute.q_error forged_callback) = false
  /\ truthy (CallbackRoute.q_code forged_callback) = true
  /\ truthy (CallbackRoute.q_state forged_callback) = true
  /\ exists w1 first w2 second,
       exec (CallbackRoute.GET forged_callback) (token_reply ++ token_reply) server_world
       = (w1, Returned first, token_reply)
       /\ exec (CallbackRoute.GET forged_callback) token_reply w1
          = (w2, Returned second, [])
       /\ length (sent w2) = 2
       /\ map fst (CallbackRoute.cookies second)
          = ["spotify_access_token"; "spotify_refresh_token"].
Proof.
  repeat (split; [reflexivity|]).
  destruct (server_callback_exchanges_a_replayed_code forged_callback server_world 10 10
              (success (token_document (Some "access-1") (Some "refresh-1")))
              (success (token_document (Some "access-1") (Some "refresh-1")))
              (token_document (Some "access-1") (Some "refresh-1")) []
              eq_refl eq_refl eq_refl eq_refl eq_refl eq_refl eq_refl eq_refl)
    as (w1 & first & w2 & second & H1 & _ & H2 & H3 & _ & H5).
  exists w1, first, w2, second.
  split; [exact H1|]. split; [exact H2|]. split; [rewrite H3; reflexivity|].
  destruct (H5 (token_document (Some "access-1") (Some "refresh-1")) eq_refl eq_refl)
    as [_ ->].
  reflexivity.
Defined.

(** X19. The POST handler is the GET handler with JSON answers: on every
    query, configuration and reply it leaves the same world, sets the same
    cookies, and answers 200 with success exactly when the GET handler
    redirects without an error; otherwise it answers 400, or 500 where the
    GET handler reports callback_handler_error.  It never throws. *)
Theorem posted_callback_mirrors_the_redirect
    (q : CallbackRoute.query_t) (script : list arrival) (w : world) :
  match exec (CallbackRoute.POST q) script w, exec (CallbackRoute.GET q) script w with
  | (w1, Returned jr, rest1), (w2, Returned r, rest2) =>
      w1 = w2 /\ rest1 = rest2
      /\ CallbackRoute.r_cookies jr = CallbackRoute.cookies r
      /\ (CallbackRoute.r_success jr = true <-> query (CallbackRoute.location r) = [])
      /\ (CallbackRoute.r_success jr = true <-> CallbackRoute.r_status jr = 200%Z)
      /\ (CallbackRoute.r_status jr = 200%Z \/ CallbackRoute.r_status jr = 400%Z
          \/ CallbackRoute.r_status jr = 500%Z)
      /\ (CallbackRoute.r_status jr = 500%Z ->
          query (CallbackRoute.location r) = [("error", "callback_handler_error")])
  | (w1, Pending, rest1), (w2, Pending, rest2) => w1 = w2 /\ rest1 = rest2
  | _, _ => False
  end.
Proof.
  unfold exec, CallbackRoute.POST, CallbackRoute.GET. unfold_tasks. crunch.
  destruct (validateSpotifyConfig w) as [e|v]; crunch; [mirrored|].
  destruct (truthy (CallbackRoute.q_error q)) eqn:Herr; crunch.
  { mirrored. }
  destruct (truthy (CallbackRoute.q_code q)); cbn [negb orb]; crunch; [|mirrored].
  destruct (truthy (CallbackRoute.q_state q)); cbn [negb orb]; crunch; [|mirrored].
  destruct script as [|[dt [|resp]] script]; crunch; [split; reflexivity | mirrored |].
  destruct (ok resp); crunch; [|mirrored].
  destruct (payload resp) as [tokens|t]; unfold_tasks; crunch; mirrored.
Qed.

(** ** The callback page *)

Ltac navigated :=
  cbn [fmap option_fmap option_map href set_href localStorage sessionStorage base query
       negb];
  repeat lazymatch goal with
    | |- _ /\ _ => split
    | |- _ <-> _ => split; [intros ?; try discriminate | intros [? ?]; try discriminate]
    | |- _ = _ => reflexivity
    end.

(** X20. Once the reply has arrived, the callback page has navigated to "/":
    it never throws.  It posts at most one request, and only when the query
    holds a code and a state and no error; the address carries no error
    exactly when that request was answered 2xx.  The page never touches the
    credential or the browser's storage. *)
Theorem callback_page_always_returns_home
    (q : CallbackRoute.query_t) (w : world) (b : browser)
    (dt : nat) (rep : reply) (script : list arrival) :
  window w = Some b ->
  let posts := truthy (CallbackRoute.q_code q) && truthy (CallbackRoute.q_state q)
               && negb (truthy (CallbackRoute.q_error q)) in
  exists w' a,
    exec (CallbackPage.handleCallback q) ((dt, rep) :: script) w
    = (w', Returned tt, if posts then script else (dt, rep) :: script)
    /\ shown w' = Some a
    /\ base a = "/"
    /\ sent w' = sent w
                 ++ (if posts
                     then [CallbackPage.post_request (CallbackRoute.q_code q)
                             (CallbackRoute.q_state q)]
                     else [])
    /\ (query a = [] <-> posts = true /\ request_failed rep = false)
    /\ spotifyApi w' = spotifyApi w
    /\ fmap localStorage (window w') = fmap localStorage (window w)
    /\ fmap sessionStorage (window w') = fmap sessionStorage (window w).
Proof.
  intros Hwin. cbv zeta.
  unfold exec, CallbackPage.handleCallback, CallbackPage.push, shown. unfold_tasks. crunch.
  destruct (truthy (CallbackRoute.q_error q)); crunch.
  { rewrite andb_false_r. do 2 eexists. split; [reflexivity|].
    cbn [window set_window sent spotifyApi]. rewrite Hwin, app_nil_r. navigated. }
  rewrite andb_true_r.
  destruct (truthy (CallbackRoute.q_code q) && truthy (CallbackRoute.q_state q)); crunch.
  2: { do 2 eexists. split; [reflexivity|].
       cbn [window set_window sent spotifyApi]. rewrite Hwin, app_nil_r. navigated. }
  destruct rep as [|r]; crunch.
  { do 2 eexists. split; [reflexivity|].
    cbn [window set_window sent spotifyApi elapse set_now set_sent]. rewrite Hwin.
    navigated. }
  cbn [request_failed].
  destruct (ok r); crunch; do 2 eexists; (split; [reflexivity|]);
    cbn [window set_window sent spotifyApi elapse set_now set_sent]; rewrite Hwin;
    navigated.
Qed.

Lemma callback_page_always_returns_home_witness :
  window callback_world = Some callback_browser
  /\ exists w' a,
       exec (CallbackPage.handleCallback forged_callback)
         [(10, Arrived (success (document "")))] callback_world
       = (w', Returned tt, [])
       /\ shown w' = Some a
       /\ query a = [].
Proof.
  split; [reflexivity|].
  destruct (callback_page_always_returns_home forged_callback callback_world
              callback_browser 10 (Arrived (success (document ""))) [] eq_refl)
    as (w' & a & H1 & H2 & _ & _ & H5 & _).
  exists w', a. split; [exact H1|]. split; [exact H2|].
  apply H5. split; reflexivity.
Defined.

Lemma POST_status
    (q : CallbackRoute.query_t) (script rest : list arrival) (w w' : world)
    (jr : CallbackRoute.json_response) :
  exec (CallbackRoute.POST q) script w = (w', Returned jr, rest) ->
  (CallbackRoute.r_status jr = 200%Z /\ CallbackRoute.r_cookies jr <> [])
  \/ ((CallbackRoute.r_status jr = 400%Z \/ CallbackRoute.r_status jr = 500%Z)
      /\ CallbackRoute.r_cookies jr = []).
Proof.
  unfold exec, CallbackRoute.POST. unfold_tasks. crunch.
  destruct (validateSpotifyConfig w) as [e|v]; crunch.
  { intros [= _ <- _]. right. cbn. auto. }
  destruct (truthy (CallbackRoute.q_error q)); crunch.
  { intros [= _ <- _]. right. cbn. auto. }
  destruct (truthy (CallbackRoute.q_code q)); cbn [negb orb]; crunch.
  2: { intros [= _ <- _]. right. cbn. auto. }
  destruct (truthy (CallbackRoute.q_state q)); cbn [negb orb]; crunch.
  2: { intros [= _ <- _]. right. cbn. auto. }
  destruct script as [|[dt [|resp]] script]; crunch; [discriminate| |].
  { intros [= _ <- _]. right. cbn. auto. }
  destruct (ok resp); crunch.
  2: { intros [= _ <- _]. right. cbn. auto. }
  destruct (payload resp) as [tokens|t]; unfold_tasks; crunch.
  2: { intros [= _ <- _]. right. cbn. auto. }
  intros [= _ <- _]. left. cbn [CallbackRoute.r_status CallbackRoute.r_cookies].
  split; [reflexivity|]. unfold CallbackRoute.token_cookies. discriminate.
Qed.

(** X21. The page and the route together: when the page posts the code and
    the state and the route answers, the page ends on "/" without an error
    exactly when the route has set the token cookies; otherwise it ends on
    "/?error=token_exchange_failed", whatever the route's own error was. *)
Theorem page_shows_no_error_exactly_when_cookies_are_set
    (q : CallbackRoute.query_t) (server server' browser_side : world) (b : browser)
    (replies rest : list arrival) (jr : CallbackRoute.json_response)
    (dt : nat) (script : list arrival) :
  window browser_side = Some b ->
  truthy (CallbackRoute.q_code q) = true ->
  truthy (CallbackRoute.q_state q) = true ->
  truthy (CallbackRoute.q_error q) = false ->
  exec (CallbackRoute.POST (posted_body q)) replies server = (server', Returned jr, rest) ->
  exists w' a,
    exec (CallbackPage.handleCallback q) ((dt, Arrived (http_reply jr)) :: script)
      browser_side
    = (w', Returned tt, script)
    /\ shown w' = Some a
    /\ base a = "/"
    /\ (query a = [] <-> CallbackRoute.r_cookies jr <> [])
    /\ (query a = [] \/ query a = [("error", "token_exchange_failed")]).
Proof.
  intros Hwin Hcode Hstate Herr Hpost.
  apply POST_status in Hpost.
  unfold exec, CallbackPage.handleCallback, CallbackPage.push, shown. unfold_tasks. crunch.
  rewrite Herr, Hcode, Hstate. cbn [andb]. crunch.
  unfold ok, http_reply. cbn [status].
  destruct Hpost as [[-> Hset]|[[-> | ->] Hnone]]; cbn [Z.leb Z.compare Pos.compare
    Pos.compare_cont andb negb CompOpp]; crunch;
    do 2 eexists; (split; [reflexivity|]);
    cbn [window set_window sent spotifyApi elapse set_now set_sent]; rewrite Hwin;
    cbn [fmap option_fmap option_map href set_href base query].
  - repeat split; auto.
  - rewrite Hnone. repeat split; auto; try discriminate. intros H. now destruct H.
  - rewrite Hnone. repeat split; auto; try discriminate. intros H. now destruct H.
Qed.

Lemma page_shows_no_error_exactly_when_cookies_are_set_witness :
  window callback_world = Some callback_browser
  /\ truthy (CallbackRoute.q_code forged_callback) = true
  /\ truthy (CallbackRoute.q_state forged_callback) = true
  /\ truthy (CallbackRoute.q_error forged_callback) = false
  /\ exists server' jr,
       exec (CallbackRoute.POST (posted_body forged_callback)) token_reply server_world
       = (server', Returned jr, [])
       /\ exists w' a,
            exec (CallbackPage.handleCallback forged_callback)
              [(10, Arrived (http_reply jr))] callback_world
            = (w', Returned tt, [])
            /\ shown w' = Some a
            /\ query a = [].
Proof.
  split; [reflexivity|]. split; [reflexivity|]. split; [reflexivity|].
  split; [reflexivity|].
  do 2 eexists. split; [vm_compute; reflexivity|].
  match goal with
  | |- context [http_reply ?jr] =>
      destruct (page_shows_no_error_exactly_when_cookies_are_set forged_callback
                  server_world _ callback_world callback_browser token_reply [] jr 10 []
                  eq_refl eq_refl eq_refl eq_refl ltac:(vm_compute; reflexivity))
        as (w' & a & H1 & H2 & _ & H4 & _)
  end.
  exists w', a. split; [exact H1|]. split; [exact H2|].
  apply H4. discriminate.
Defined.

(** ** The provider *)

Ltac run_setters :=
  unfold exec, AuthContext.setError, AuthContext.setIsAuthenticated,
    AuthContext.setAccessToken, AuthContext.setUser, AuthContext.setIsLoading;
  unfold_tasks; crunch;
  cbn [react set_react AuthContext.setIsLoading_now s_isLoading s_isAuthenticated s_error
       s_user s_accessToken].


(** X22. The provider's callback handler never signs the user in: whatever
    the code, the state and the world, it returns at once, without sending
    anything and without awaiting a reply, because the client's handler
    throws on the unbound [retrieveState]; the provider ends signed out and
    not loading, with the message "retrieveState is not defined" as its
    error, and the stored state and credential are left as they were. *)
Theorem provider_callback_never_signs_in
    (fuel : nat) (code state : string) (script : list arrival) (w : world) :
  exists w',
    exec (AuthContext.handleAuthCallback fuel code state) script w
    = (w', Returned tt, script)
    /\ react w'
       = {| s_isAuthenticated := false; s_isLoading := false;
            s_error := Some "retrieveState is not defined";
            s_user := None; s_accessToken := None |}
    /\ signed_out (react w')
    /\ sent w' = sent w
    /\ window w' = window w
    /\ spotifyApi w' = spotifyApi w.
Proof.
  unfold AuthContext.handleAuthCallback.
  rewrite exec_try_finally, exec_try_catch.
  unfold AuthContext.setIsLoading at 1. rewrite exec_bind, exec_perform.
  unfold AuthContext.setError at 1. rewrite exec_bind, exec_perform, exec_bind.
  rewrite handleAuthCallback_unbound.
  run_setters. eexists. split; [reflexivity|].
  cbn [react set_react AuthContext.setIsLoading_now sent window spotifyApi message].
  repeat split.
Qed.



(** ** The guards *)

(** X24. Protected content is rendered only to a signed-in user: each of
    [RequireAuth], [AuthenticatedOnly] and [ProtectedRoute] returns its
    children exactly when the provider is not loading and is authenticated
    (and [ProtectedRoute] then leaves the browser alone), whatever fallback
    nodes are passed; [UnauthenticatedOnly] returns its children exactly
    when the provider is not loading and is not authenticated. *)
Theorem guards_show_children_only_when_signed_in
    (fallback redirectTo loadingComponent unauthorizedComponent : option string)
    (w : world) :
  let s := react w in
  let guarded := AuthGuard.ProtectedRoute redirectTo loadingComponent
                   unauthorizedComponent w in
  let signed := negb (s_isLoading s) && s_isAuthenticated s in
  (AuthGuard.RequireAuth fallback s = AuthGuard.Children <-> signed = true)
  /\ (AuthGuard.AuthenticatedOnly s = AuthGuard.Children <-> signed = true)
  /\ (fst guarded = AuthGuard.Children <-> signed = true)
  /\ (signed = true -> snd guarded = w)
  /\ (AuthGuard.UnauthenticatedOnly s = AuthGuard.Children
      <-> negb (s_isLoading s) && negb (s_isAuthenticated s) = true).
Proof.
  cbv zeta.
  unfold AuthGuard.RequireAuth, AuthGuard.AuthenticatedOnly, AuthGuard.UnauthenticatedOnly,
    AuthGuard.ProtectedRoute, AuthGuard.or_builtin.
  destruct (s_isLoading (react w)), (s_isAuthenticated (react w));
    cbn [negb andb orb fst snd];
    destruct (truthy fallback), (truthy loadingComponent), (truthy unauthorizedComponent),
      (truthy redirectTo), (window w);
    cbn [fst snd]; repeat split; intros; try discriminate; try reflexivity.
Qed.

(** X25. [ProtectedRoute] navigates only for a signed-out user whose state
    has settled: it changes the world only when the provider is not loading
    and not authenticated, a truthy [redirectTo] is given and the code runs
    in a browser; it then renders nothing and sets the address to
    [redirectTo], leaving storage, credential and network alone. *)
Theorem protected_route_redirects_only_when_signed_out
    (redirectTo loadingComponent unauthorizedComponent : option string) (w : world) :
  let guarded := AuthGuard.ProtectedRoute redirectTo loadingComponent
                   unauthorizedComponent w in
  let redirects := negb (s_isLoading (react w)) && negb (s_isAuthenticated (react w))
                   && truthy redirectTo
                   && match window w with Some _ => true | None => false end in
  if redirects
  then fst guarded = AuthGuard.Null
       /\ shown (snd guarded) = Some {| base := show redirectTo; query := [] |}
       /\ fmap localStorage (window (snd guarded)) = fmap localStorage (window w)
       /\ fmap sessionStorage (window (snd guarded)) = fmap sessionStorage (window w)
       /\ spotifyApi (snd guarded) = spotifyApi w
       /\ react (snd guarded) = react w
       /\ sent (snd guarded) = sent w
  else snd guarded = w /\ fst guarded <> AuthGuard.Null.
Proof.
  cbv zeta. unfold AuthGuard.ProtectedRoute, AuthGuard.or_builtin, shown.
  destruct (s_isLoading (react w)); cbn [negb andb].
  { destruct (truthy loadingComponent); cbn [fst snd]; split; congruence. }
  destruct (s_isAuthenticated (react w)); cbn [negb andb].
  { cbn [fst snd]. split; congruence. }
  destruct (window w) as [b|] eqn:Hwin.
  - rewrite andb_true_r.
    destruct (truthy redirectTo).
    + cbn [fst snd window set_window fmap option_fmap option_map]. rewrite Hwin.
      cbn [fmap option_fmap option_map href set_href localStorage sessionStorage].
      repeat split.
    + destruct (truthy unauthorizedComponent); cbn [fst snd]; split; congruence.
  - rewrite andb_false_r.
    destruct (truthy unauthorizedComponent); cbn [fst snd]; split; congruence.
Qed.

(** ** The profile route *)

Ltac answered :=
  cbn [MeRoute.m_status MeRoute.m_body sent spotifyApi elapse set_now set_sent];
  repeat split; try lia; try discriminate;
  repeat lazymatch goal with
    | |- (exists _ _ _, _) -> _ =>
        let H := fresh in
        intros (? & ? & ? & ? & H & ? & ? & ?);
        first [discriminate | injection H as <- <-; first [discriminate | congruence]]
    | |- _ \/ (exists _ _, _) -> _ =>
        let H := fresh in
        intros [?|(? & ? & H & ?)];
        [discriminate
        |first [discriminate | injection H as <- <-; first [contradiction | congruence]]]
    | |- _ = _ -> _ => intros ?
    end.

(** X26. The profile route never throws and never refreshes: without an
    access-token cookie it answers 401 without a request; with one it sends
    a single request to https://api.spotify.com/v1/me bearing the cookie.
    It answers 200 with the profile exactly when that request was answered
    2xx with a JSON document, 401 exactly when the cookie is missing or the
    answer was a 401, and always with a status between 200 and 599 (an
    upstream status outside that range becomes a 500). *)
Theorem profile_route_answers
    (cookies : gmap string string) (script : list arrival) (w : world) :
  let accessToken := cookies !! "spotify_access_token" in
  match exec (MeRoute.GET cookies) script w with
  | (w', Returned r, rest) =>
      (200 <= MeRoute.m_status r <= 599)%Z
      /\ sent w' = sent w ++ (if truthy accessToken
                              then [MeRoute.me_request accessToken] else [])
      /\ (MeRoute.m_status r = 200%Z
          <-> exists dt resp j,
                truthy accessToken = true
                /\ script = (dt, Arrived resp) :: rest
                /\ ok resp = true /\ payload resp = Json j
                /\ MeRoute.m_body r = MeRoute.UserData j)
      /\ (MeRoute.m_status r = 401%Z
          <-> truthy accessToken = false
              \/ exists dt resp, script = (dt, Arrived resp) :: rest
                                 /\ status resp = 401%Z)
      /\ spotifyApi w' = spotifyApi w
  | (w', Pending, rest) =>
      script = [] /\ truthy accessToken = true
      /\ sent w' = sent w ++ [MeRoute.me_request accessToken]
  | (_, Thrown _, _) | (_, OutOfFuel, _) => False
  end.
Proof.
  cbv zeta. unfold exec, MeRoute.GET, MeRoute.json_reply, MeRoute.null_body_status.
  cbn [Z.leb Z.compare Pos.compare Pos.compare_cont andb orb negb CompOpp existsb Z.eqb
       Pos.eqb].
  unfold_tasks. crunch.
  destruct (truthy (cookies !! "spotify_access_token")) eqn:Hcookie; crunch.
  2: { rewrite app_nil_r. answered. }
  destruct script as [|[dt [|resp]] script]; crunch; [repeat split | answered |].
  unfold ok. destruct (status resp =? 401)%Z eqn:H401.
  { apply Z.eqb_eq in H401. rewrite H401.
    cbn [Z.leb Z.compare Pos.compare Pos.compare_cont andb negb CompOpp]. crunch.
    answered. right. eauto. }
  apply Z.eqb_neq in H401.
  destruct ((200 <=? status resp) && (status resp <=? 299))%Z eqn:Hok; cbn [negb]; crunch.
  - pose proof Hok as Hrange. apply andb_true_iff in Hrange as [Hlo Hhi].
    apply Z.leb_le in Hlo, Hhi.
    destruct (payload resp) as [j|t] eqn:Hbody; unfold_tasks; crunch; answered.
    exists dt, resp, j. auto.
  - destruct ((200 <=? status resp) && (status resp <=? 599))%Z eqn:Hrange; cbn [negb];
      [lazymatch goal with
       | |- context [if ?c then (fun w0 => Rejected w0 (TypeError _)) else _] =>
           destruct c
       end|];
      unfold_tasks; crunch; answered.
Qed.

(** ** Albums of a track list *)

Lemma has_spec (m : Recommendation.Map) (k : string) :
  Recommendation.has m k = true <-> k ∈ (m.*1).
Proof.
  unfold Recommendation.has. rewrite existsb_exists, list_elem_of_fmap. split.
  - intros (kv & Hin & Heq). apply String.eqb_eq in Heq. exists kv.
    split; [symmetry; exact Heq | now apply list_elem_of_In].
  - intros (kv & -> & Hin). exists kv.
    split; [now apply list_elem_of_In | apply String.eqb_refl].
Qed.

Lemma fold_visit_spec (tracks : list Recommendation.track) (m : Recommendation.Map) :
  NoDup (m.*1) ->
  (forall k a, (k, a) ∈ m -> k = Recommendation.album_id a) ->
  exists extra,
    fold_left Recommendation.visit tracks m = m ++ extra
    /\ NoDup ((m ++ extra).*1)
    /\ (forall k a, (k, a) ∈ (m ++ extra) -> k = Recommendation.album_id a)
    /\ (forall a, a ∈ (extra.*2) ->
          (Recommendation.album_id a ∉ (m.*1))
          /\ exists pre t post,
               tracks = pre ++ t :: post
               /\ Recommendation.track_album t = Some a
               /\ forall t' a', t' ∈ pre -> Recommendation.track_album t' = Some a' ->
                    Recommendation.album_id a' <> Recommendation.album_id a)
    /\ (forall t a, t ∈ tracks -> Recommendation.track_album t = Some a ->
          Recommendation.album_id a ∈ ((m ++ extra).*1)).
Proof.
  revert m. induction tracks as [|t tracks IH]; intros m Hdup Hkeys.
  { exists []. rewrite app_nil_r. cbn [fold_left].
    split; [reflexivity|]. split; [exact Hdup|]. split; [exact Hkeys|]. split.
    - intros a Ha%elem_of_nil. contradiction.
    - intros t a Ht%elem_of_nil. contradiction. }
  cbn [fold_left]. unfold Recommendation.visit at 2.
  destruct (Recommendation.track_album t) as [a0|] eqn:Halbum.
  2: { destruct (IH m Hdup Hkeys) as (extra & Hfold & Hnodup & Hk & Hfirst & Hall).
       exists extra.
       split; [exact Hfold|]. split; [exact Hnodup|]. split; [exact Hk|]. split.
       - intros a Ha.
         destruct (Hfirst a Ha) as (Hfresh & pre & t1 & post & -> & Ht1 & Hpre).
         split; [exact Hfresh|].
         exists (t :: pre), t1, post. split; [reflexivity|]. split; [exact Ht1|].
         intros t' a' [->|Hin]%elem_of_cons; [congruence | eauto].
       - intros t1 a [->|Hin]%elem_of_cons; [congruence | eauto]. }
  destruct (Recommendation.has m (Recommendation.album_id a0)) eqn:Hhas; cbn [negb].
  { apply has_spec in Hhas.
    destruct (IH m Hdup Hkeys) as (extra & Hfold & Hnodup & Hk & Hfirst & Hall).
    exists extra.
    split; [exact Hfold|]. split; [exact Hnodup|]. split; [exact Hk|]. split.
    - intros a Ha.
      destruct (Hfirst a Ha) as (Hfresh & pre & t1 & post & -> & Ht1 & Hpre).
      split; [exact Hfresh|].
      exists (t :: pre), t1, post. split; [reflexivity|]. split; [exact Ht1|].
      intros t' a' [->|Hin]%elem_of_cons; [|eauto].
      rewrite Halbum. intros [= <-] Heq. apply Hfresh. now rewrite <- Heq.
    - intros t1 a [->|Hin]%elem_of_cons; [|eauto].
      rewrite Halbum. intros [= <-]. rewrite fmap_app. apply elem_of_app. now left. }
  assert (Hfresh0 : Recommendation.album_id a0 ∉ (m.*1)).
  { intros Hin. apply has_spec in Hin. congruence. }
  unfold Recommendation.set. rewrite Hhas.
  destruct (IH (m ++ [(Recommendation.album_id a0, a0)])) as
    (extra & Hfold & Hnodup & Hk & Hfirst & Hall).
  { rewrite fmap_app. apply NoDup_app. split; [exact Hdup|]. split.
    - intros k Hin [->|Hnil%elem_of_nil]%elem_of_cons; [contradiction | exact Hnil].
    - cbn. apply NoDup_singleton. }
  { intros k a [Hin|[[= -> ->]|Hnil%elem_of_nil]%elem_of_cons]%elem_of_app; auto.
    contradiction. }
  exists ((Recommendation.album_id a0, a0) :: extra).
  replace (m ++ (Recommendation.album_id a0, a0) :: extra)
    with ((m ++ [(Recommendation.album_id a0, a0)]) ++ extra)
    by (rewrite <- app_assoc; reflexivity).
  split; [exact Hfold|]. split; [exact Hnodup|]. split; [exact Hk|]. split.
  - intros a Ha. cbn in Ha. apply elem_of_cons in Ha as [->|Hin].
    + split; [exact Hfresh0|].
      exists [], t, tracks. split; [reflexivity|]. split; [exact Halbum|].
      intros t' a' Hnil%elem_of_nil. contradiction.
    + destruct (Hfirst a Hin) as (Hnew & pre & t1 & post & -> & Ht1 & Hpre).
      split.
      * intros Hold. apply Hnew. rewrite fmap_app. apply elem_of_app. now left.
      * exists (t :: pre), t1, post. split; [reflexivity|]. split; [exact Ht1|].
        intros t' a' [->|Hin']%elem_of_cons; [|eauto].
        rewrite Halbum. intros [= <-] Heq. apply Hnew.
        rewrite fmap_app. apply elem_of_app. right. cbn. rewrite Heq.
        apply list_elem_of_here.
  - intros t1 a [->|Hin]%elem_of_cons; [|eauto].
    rewrite Halbum. intros [= <-]. rewrite !fmap_app. apply elem_of_app. left.
    apply elem_of_app. right. cbn. apply list_elem_of_here.
Qed.

Lemma keys_are_ids (m : Recommendation.Map) :
  (forall k a, (k, a) ∈ m -> k = Recommendation.album_id a) ->
  m.*1 = Recommendation.album_id <$> (m.*2).
Proof.
  induction m as [|[k a] m IH]; intros Hkeys; [reflexivity|].
  cbn. rewrite (Hkeys k a) by apply list_elem_of_here.
  f_equal. apply IH. intros k' a' Hin. apply Hkeys. now apply list_elem_of_further.
Qed.

(** X27. [extractAlbumsFromTracks] returns each album once, the first one
    met: the identifiers of the result are pairwise distinct; every album of
    a track is represented by its identifier; every album of the result is
    the album of a track before which no track has an album with the same
    identifier; and tracks added at the end only add albums at the end. *)
Theorem extractAlbumsFromTracks_keeps_the_first_of_each
    (tracks : list Recommendation.track) :
  let albums := Recommendation.extractAlbumsFromTracks tracks in
  NoDup (Recommendation.album_id <$> albums)
  /\ (forall t a, t ∈ tracks -> Recommendation.track_album t = Some a ->
        Recommendation.album_id a ∈ Recommendation.album_id <$> albums)
  /\ (forall a, a ∈ albums ->
        exists pre t post,
          tracks = pre ++ t :: post
          /\ Recommendation.track_album t = Some a
          /\ forall t' a', t' ∈ pre -> Recommendation.track_album t' = Some a' ->
               Recommendation.album_id a' <> Recommendation.album_id a)
  /\ (forall more, exists added,
        Recommendation.extractAlbumsFromTracks (tracks ++ more) = albums ++ added).
Proof.
  cbv zeta. unfold Recommendation.extractAlbumsFromTracks, Recommendation.values.
  destruct (fold_visit_spec tracks []) as (extra & Hfold & Hnodup & Hk & Hfirst & Hall).
  { constructor. }
  { intros k a Hnil%elem_of_nil. contradiction. }
  cbn [app] in *. rewrite Hfold.
  change (map snd extra) with (extra.*2).
  rewrite <- (keys_are_ids extra Hk).
  split; [exact Hnodup|]. split; [exact Hall|]. split.
  - intros a Ha. now destruct (Hfirst a Ha) as [_ ?].
  - intros more. rewrite fold_left_app, Hfold.
    destruct (fold_visit_spec more extra Hnodup Hk) as (added & Hmore & _).
    rewrite Hmore. exists (added.*2). apply map_app.
Qed.
